(** * PacketParser: a shallow embedding of [src/core/PacketParser.cc]

    The parser decodes Ethernet / 802.1Q / IPv4 / ARP / TCP / UDP / DHCP
    headers of a packet-in buffer, records where each OXM field lives in
    a table of raw pointers ([bindings]) and offers [load] / [modify]
    through those pointers.

    The C++ code works on raw pointers into a buffer it does not own, so
    the model is a block/offset memory: a pointer is null or a block and
    an offset, the heap is total (a read past the end of the packet
    buffer returns whatever lies there), and every read the parser makes
    through the packet pointer is appended to a ghost [trace], which is
    what the bounds properties are stated on. *)

From Stdlib Require Import NArith Lia.
From Stdlib Require Import Strings.Byte.
From stdpp Require Import base list gmap.

Local Open Scope N_scope.

(** ** Data model *)

(** The enumerators of [of::oxm::basic_match_fields] that the parser
    names.  The enumeration itself is declared in a header that is not
    part of the sources at hand, so the numeric value of an enumerator is
    a parameter of the development ([field_id] below). *)
Inductive basic_match_fields : Set :=
| IN_PORT | ETH_DST | ETH_SRC | ETH_TYPE | VLAN_VID
| IP_PROTO | IPV4_SRC | IPV4_DST
| TCP_SRC | TCP_DST | UDP_SRC | UDP_DST
| ARP_OP | ARP_SPA | ARP_TPA | ARP_SHA | ARP_THA
| DHCP_OP | DHCP_XID | DHCP_CIADDR | DHCP_YIADDR | DHCP_CHADDR.

#[global] Instance basic_match_fields_eq_dec : EqDecision basic_match_fields.
Proof. solve_decision. Defined.

(** Two memory blocks matter: the [in_port] member of the parser object
    (the constructor binds [IN_PORT] to its address) and the packet
    buffer that [pi.data()] points into. *)
Inductive block : Set := this_in_port | pi_buffer.

#[global] Instance block_eq_dec : EqDecision block.
Proof. solve_decision. Defined.

(** [void*]: null, or an address inside one of the blocks. *)
Inductive pointer : Set :=
| nullptr
| ptr (b : block) (off : N).

#[global] Instance pointer_eq_dec : EqDecision pointer.
Proof. solve_decision. Defined.

#[global] Instance pointer_inhabited : Inhabited pointer := populate nullptr.

(** Conversion of a pointer to [bool], as in [ASSERT(!bindings.at(id))]. *)
Definition to_bool (p : pointer) : bool :=
  match p with nullptr => false | ptr _ _ => true end.

Definition memory := block -> N -> byte.

(** [dhcp_opt(code, len, data)]: the class is declared in the absent
    header; it is modelled as the triple its constructor receives, the
    value being a view (pointer and length) into the packet. *)
Record dhcp_opt : Set := mk_dhcp_opt {
  opt_code : N;
  opt_len : N;
  opt_data : pointer
}.

(** Modelled from the spec: the default-constructed [dhcp_opt()] of the
    absent header, "an explicit absent/empty entry". *)
Definition dhcp_opt_empty : dhcp_opt := mk_dhcp_opt 0 0 nullptr.

(** The parser object, together with the heap it looks at and the ghost
    trace of packet offsets read so far.  [vlan_tagged] is [None] until
    [parse_l2] assigns it (the constructor does not initialise it). *)
Record PacketParser : Type := mkPacketParser {
  data : option N;
  data_len : N;
  bindings : list pointer;
  vlan_tagged : option bool;
  dhcp_options : gmap N dhcp_opt;
  heap : memory;
  trace : list N
}.

Definition set_bindings (t : list pointer) (p : PacketParser) : PacketParser :=
  mkPacketParser (data p) (data_len p) t (vlan_tagged p) (dhcp_options p)
                 (heap p) (trace p).

Definition set_vlan_tagged (b : bool) (p : PacketParser) : PacketParser :=
  mkPacketParser (data p) (data_len p) (bindings p) (Some b) (dhcp_options p)
                 (heap p) (trace p).

Definition set_dhcp_options (o : gmap N dhcp_opt) (p : PacketParser) : PacketParser :=
  mkPacketParser (data p) (data_len p) (bindings p) (vlan_tagged p) o
                 (heap p) (trace p).

Definition set_heap (h : memory) (p : PacketParser) : PacketParser :=
  mkPacketParser (data p) (data_len p) (bindings p) (vlan_tagged p)
                 (dhcp_options p) h (trace p).

Definition log_read (off : N) (p : PacketParser) : PacketParser :=
  mkPacketParser (data p) (data_len p) (bindings p) (vlan_tagged p)
                 (dhcp_options p) (heap p) (off :: trace p).

(** ** Failures and the state/exception monad *)

(** What can be thrown: the four [ASSERT]s of the file and the
    [std::out_of_range] of [std::array::at]. *)
Inductive failure : Set :=
| already_bound (id : nat)      (* "Trying to bind already binded field" *)
| not_yet_bound (id : nat)      (* "Trying to rebind unbinded field" *)
| unsupported_ns (ns : N)       (* "Unsupported oxm namespace" *)
| unsupported_field (id : nat)  (* "Unsupported oxm field" *)
| out_of_range (id : nat).      (* bindings.at(id) with id >= size *)

Inductive outcome (A : Type) : Type :=
| Done (a : A) (p : PacketParser)
| Thrown (e : failure) (p : PacketParser).
Arguments Done {A} a p.
Arguments Thrown {A} e p.

Definition M (A : Type) : Type := PacketParser -> outcome A.

Definition ret {A} (a : A) : M A := fun p => Done a p.

Definition and_then {A B} (c : M A) (k : A -> M B) : M B :=
  fun p => match c p with
           | Done a p' => k a p'
           | Thrown e p' => Thrown e p'
           end.

Declare Scope parser_scope.
Delimit Scope parser_scope with parser.
Notation "x <- c ;; k" := (and_then c (fun x => k))
  (at level 100, c at next level, right associativity) : parser_scope.
Notation "c ;; k" := (and_then c (fun _ => k))
  (at level 100, right associativity) : parser_scope.
Local Open Scope parser_scope.

Definition throw {A} (e : failure) : M A := fun p => Thrown e p.

(** [ASSERT(cond, ...)] *)
Definition ASSERT (cond : bool) (e : failure) : M unit :=
  if cond then ret tt else throw e.

Definition get {A} (f : PacketParser -> A) : M A := fun p => Done (f p) p.
Definition update (f : PacketParser -> PacketParser) : M unit :=
  fun p => Done tt (f p).

(** One byte read through the packet pointer; the offset is logged. *)
Definition read8 (off : N) : M N :=
  fun p => Done (Byte.to_N (heap p pi_buffer off)) (log_read off p).

(** [big_uint16_t]: two bytes, most significant first. *)
Definition read16 (off : N) : M N :=
  hi <- read8 off ;;
  lo <- read8 (off + 1) ;;
  ret (hi * 256 + lo).

(** ** Big-endian bit strings over the heap *)

Definition byte_of_N (v : N) : byte :=
  match Byte.of_N (v mod 256) with Some b => b | None => Byte.x00 end.

(** The [n] bytes at [b], [off], read as one big-endian number. *)
Fixpoint load_be (h : memory) (b : block) (off : N) (n : nat) : N :=
  match n with
  | O => 0
  | S n' => Byte.to_N (h b off) * 2 ^ (8 * N.of_nat n') + load_be h b (off + 1) n'
  end.

(** The heap after writing the low [8 * n] bits of [x] big-endian into
    the [n] bytes at [b], [off]. *)
Definition store_be (h : memory) (b : block) (off : N) (n : nat) (x : N) : memory :=
  fun b' a =>
    if decide (b' = b /\ off <= a < off + N.of_nat n)
    then byte_of_N (x / 2 ^ (8 * (N.of_nat n - 1 - (a - off))))
    else h b' a.

(** Bytes spanned by a bit string of [w] bits, and the bits of the last
    byte that lie after it. *)
Definition nbytes (w : N) : nat := N.to_nat ((w + 7) / 8).
Definition pad (w : N) : N := 8 * N.of_nat (nbytes w) - w.

(** Modelled from the spec: the constructor [bits<>(nbits, ptr)] of the
    absent bit-string class, "read exactly the field's declared bit width
    of big-endian bits starting at that location": the first [w] bits of
    the bytes at the pointer, most significant first. *)
Definition bits_from_buffer (w : N) (h : memory) (q : pointer) : N :=
  match q with
  | nullptr => 0
  | ptr b off => N.shiftr (load_be h b off (nbytes w)) (pad w)
  end.

(** Modelled from the spec: [bits<>::to_buffer(ptr)] of the absent
    bit-string class, "write the resulting bit string back to the bound
    location in place": the first [w] bits at the pointer become [v], the
    other bits of the last byte stay. *)
Definition to_buffer (w : N) (v : N) (h : memory) (q : pointer) : memory :=
  match q with
  | nullptr => h
  | ptr b off =>
      let old := load_be h b off (nbytes w) in
      store_be h b off (nbytes w)
               (N.lor (N.shiftl (N.land v (N.ones w)) (pad w))
                      (N.land old (N.ones (pad w))))
  end.

(** ** OXM types, masks and fields

    [oxm::type], [oxm::mask<>] and [oxm::field<>] come from the absent
    field registry; only what [access], [load] and [modify] use of them
    is modelled: a type is a namespace, an id and a bit width, a mask is
    a type with mask bits, a field is a type with value and mask bits. *)
Record oxm_type : Set := mk_oxm_type {
  type_ns : N;
  type_id : nat;
  type_nbits : N
}.

Record oxm_mask : Set := mk_oxm_mask {
  mask_type : oxm_type;
  mask_bits : N
}.

Record oxm_field : Set := mk_oxm_field {
  field_type : oxm_type;
  value_bits : N;
  field_mask_bits : N
}.

(** Modelled from the spec: [oxm::mask<>(type)], the mask with all bits
    of the field set ("mask = all bits"). *)
Definition exact_mask (t : oxm_type) : oxm_mask :=
  mk_oxm_mask t (N.ones (type_nbits t)).

(** Modelled from the spec: [oxm::value<>{type, bits} & mask], "the
    bitwise AND of those bits with the supplied mask, paired with the
    mask". *)
Definition value_and_mask (t : oxm_type) (bits : N) (mask : oxm_mask) : oxm_field :=
  mk_oxm_field t (N.land bits (mask_bits mask)) (mask_bits mask).

(** Modelled from the spec: [field >> patch], "replace the bits selected
    by the patch's mask with the patch's value bits (leaving unselected
    bits unchanged)". *)
Definition apply_patch (f patch : oxm_field) : oxm_field :=
  mk_oxm_field (field_type f)
               (N.lor (N.ldiff (value_bits f) (field_mask_bits patch))
                      (N.land (value_bits patch) (field_mask_bits patch)))
               (N.lor (field_mask_bits f) (field_mask_bits patch)).

(** [fluid_msg::of13::PacketIn], as far as the constructor looks at it:
    [data()] (null, or an offset into the packet block), [data_len()] and
    the ingress port of its match. *)
Record PacketIn : Set := mk_PacketIn {
  pi_data : option N;
  pi_data_len : N;
  pi_in_port : N
}.

(** ** Header layouts

    Byte offsets of the members of the packed header structs
    ([boost::endian] arithmetic types have alignment 1), and the sizes
    checked by the [static_assert]s. *)

Module ethernet_hdr.
Definition dst : N := 0.
Definition src : N := 6.
Definition type : N := 12.
Definition sizeof : N := 14.
Definition header_length : N := sizeof.
End ethernet_hdr.

Module dot1q_hdr.
Definition dst : N := 0.
Definition src : N := 6.
Definition tpid : N := 12.
Definition tci : N := 14.
Definition type : N := 16.
Definition sizeof : N := 18.
End dot1q_hdr.

Module ipv4_hdr.
Definition ihl_version : N := 0.
Definition protocol : N := 9.
Definition src : N := 12.
Definition dst : N := 16.
Definition sizeof : N := 20.
End ipv4_hdr.

Module tcp_hdr.
Definition src : N := 0.
Definition dst : N := 2.
Definition sizeof : N := 20.
End tcp_hdr.

Module udp_hdr.
Definition src : N := 0.
Definition dst : N := 2.
Definition sizeof : N := 8.
Definition header_length : N := 8.
End udp_hdr.

Module arp_hdr.
Definition htype : N := 0.
Definition ptype : N := 2.
Definition hlen : N := 4.
Definition plen : N := 5.
Definition oper : N := 6.
Definition sha : N := 8.
Definition spa : N := 14.
Definition tha : N := 18.
Definition tpa : N := 24.
Definition sizeof : N := 28.
End arp_hdr.

Module dhcp_hdr.
Definition op : N := 0.
Definition xid : N := 4.
Definition ciaddr : N := 12.
Definition yiaddr : N := 16.
Definition chaddr : N := 28.
Definition options : N := 34.
Definition sizeof : N := 34.
End dhcp_hdr.

(** [ipv4_hdr::header_length()]: [ihl * 4], where the bit-field [ihl:4]
    is declared first in its byte and so sits in the low nibble (the
    layout of the little-endian ABIs the code is built for). *)
Definition ipv4_header_length (data : N) : M N :=
  b <- read8 (data + ipv4_hdr.ihl_version) ;;
  ret ((b mod 16) * 4).

(** Short-circuit [||] and [&&] over conditions that read the packet. *)
Definition orelse (c1 c2 : M bool) : M bool :=
  b <- c1 ;; if b then ret true else c2.
Definition andalso (c1 c2 : M bool) : M bool :=
  b <- c1 ;; if b then c2 else ret false.

Definition packet (off : N) : pointer := ptr pi_buffer off.

(** The magic cookie that opens the DHCP options. *)
Definition dhcp_cookie : list N := [0x63; 0x82; 0x53; 0x63].

(** ** Sample inputs

    A numbering of the enumerators to run the model with (the OXM ids of
    OpenFlow 1.3 for the standard fields, the DHCP fields after them, 45
    slots), and frames given as lists of byte values. *)

Definition of13_id (f : basic_match_fields) : nat :=
  match f with
  | IN_PORT => 0 | ETH_DST => 3 | ETH_SRC => 4 | ETH_TYPE => 5 | VLAN_VID => 6
  | IP_PROTO => 10 | IPV4_SRC => 11 | IPV4_DST => 12
  | TCP_SRC => 13 | TCP_DST => 14 | UDP_SRC => 15 | UDP_DST => 16
  | ARP_OP => 21 | ARP_SPA => 22 | ARP_TPA => 23 | ARP_SHA => 24 | ARP_THA => 25
  | DHCP_OP => 40 | DHCP_XID => 41 | DHCP_CIADDR => 42 | DHCP_YIADDR => 43
  | DHCP_CHADDR => 44
  end%nat.

(** A heap whose packet block starts with the bytes [l] (zero after
    them) and whose other block is zero. *)
Definition frame_memory (l : list N) : memory :=
  fun b a => match b with
             | pi_buffer => byte_of_N (nth (N.to_nat a) l 0)
             | this_in_port => Byte.x00
             end.

(** The packet-in for the frame [l], received on port 1. *)
Definition frame_in (l : list N) : PacketIn :=
  mk_PacketIn (Some 0) (N.of_nat (length l)) 1.

Definition final {A} (o : outcome A) : PacketParser :=
  match o with Done _ p => p | Thrown _ p => p end.

Definition returned {A} (o : outcome A) : bool :=
  match o with Done _ _ => true | Thrown _ _ => false end.

(** 14 bytes: two MAC addresses and the ethertype 0x8100, no tag. *)
Definition short_tagged_frame : list N :=
  replicate 12 0 ++ [0x81; 0x00].

(** 34 bytes: a tagged Ethernet header (TCI 0xE005, inner ethertype
    0x0800) and 16 bytes that start like an IPv4 header. *)
Definition tagged_ipv4_34 : list N :=
  replicate 12 0 ++ [0x81; 0x00; 0xE0; 0x05; 0x08; 0x00]
  ++ [0x45] ++ replicate 15 0.

(** 18 bytes: a tagged Ethernet header alone, TCI 0xE005 (priority 7,
    VLAN id 5), inner ethertype 0x0800. *)
Definition tagged_frame : list N :=
  replicate 12 0 ++ [0x81; 0x00; 0xE0; 0x05; 0x08; 0x00].

(** 14 bytes: an untagged Ethernet header, ethertype 0x0800. *)
Definition untagged_frame : list N :=
  replicate 12 0 ++ [0x08; 0x00].

(** 5 bytes. *)
Definition runt_frame : list N := [1; 2; 3; 4; 5].

(** 42 bytes: Ethernet (ethertype 0x0806) and an ARP header with
    hardware type 2. *)
Definition bad_arp_frame : list N :=
  replicate 12 0 ++ [0x08; 0x06]
  ++ [0x00; 0x02; 0x08; 0x00; 6; 4; 0; 1] ++ replicate 20 0.

(** Ethernet, IPv4 (ihl 5, protocol 17) and UDP from port 68 to 67. *)
Definition udp_68_67 : list N :=
  replicate 12 0 ++ [0x08; 0x00]
  ++ [0x45] ++ replicate 8 0 ++ [0x11] ++ replicate 10 0
  ++ [0; 68; 0; 67; 0; 0; 0; 0].

(** 76 bytes: the above and a 34-byte DHCP fixed header, nothing after. *)
Definition dhcp_header_only : list N := udp_68_67 ++ replicate 34 0.

(** 84 bytes: the above, the cookie, option 53 of length 1 and value 2,
    and the terminator. *)
Definition dhcp_discover : list N :=
  dhcp_header_only ++ dhcp_cookie ++ [53; 1; 2; 0xFF].

(** 54 bytes: Ethernet (ethertype 0x0800), IPv4 (ihl 5, protocol 6) and
    a TCP header from port 0x1234 to port 0x0050. *)
Definition tcp_frame : list N :=
  replicate 12 0 ++ [0x08; 0x00]
  ++ [0x45] ++ replicate 8 0 ++ [0x06] ++ replicate 10 0
  ++ [0x12; 0x34; 0x00; 0x50] ++ replicate 16 0.

(** The header of [dhcp_header_only], the cookie, option 53 twice (value
    1, then value 2) and the terminator. *)
Definition dhcp_duplicate : list N :=
  dhcp_header_only ++ dhcp_cookie ++ [53; 1; 1; 53; 1; 2; 0xFF].

(** The OXM type of the VLAN-id field in the sample numbering, 16 bits
    wide as the TCI it is bound to, and a patch that sets the VLAN id to
    0x123 and selects nothing else. *)
Definition sample_vlan_vid : oxm_type := mk_oxm_type 0x8000 6 16.
Definition sample_arp_op : oxm_type := mk_oxm_type 0x8000 21 16.
Definition vid_patch : oxm_field := mk_oxm_field sample_vlan_vid 0x123 0x0FFF.

(** 42 bytes: Ethernet (ethertype 0x0806) and an ARP request for
    Ethernet and IPv4. *)
Definition arp_request : list N :=
  replicate 12 0 ++ [0x08; 0x06]
  ++ [0x00; 0x01; 0x08; 0x00; 6; 4; 0; 1] ++ replicate 20 0.

(** 54 bytes: Ethernet (ethertype 0x86dd) and 40 bytes of IPv6 header. *)
Definition ipv6_frame : list N :=
  replicate 12 0 ++ [0x86; 0xdd] ++ [0x60] ++ replicate 39 0.

Section Parser.

(** Parameters standing for declarations of absent headers:
    the numeric value of each enumerator ([static_cast<size_t>]), the
    number of slots of the [bindings] array, and the namespace constant
    [of::oxm::ns::OPENFLOW_BASIC]. *)
Variable field_id : basic_match_fields -> nat.
Variable bindings_size : nat.
Variable OPENFLOW_BASIC : N.

(** ** Binding table operations *)

Definition binding_list := list (basic_match_fields * pointer).

(** [bindings.at(id)] *)
Definition at_ (id : nat) : M pointer :=
  fun p => match bindings p !! id with
           | Some q => Done q p
           | None => Thrown (out_of_range id) p
           end.

(** [bindings.at(id) = q] *)
Definition at_put (id : nat) (q : pointer) : M unit :=
  fun p => match bindings p !! id with
           | Some _ => Done tt (set_bindings (<[id := q]> (bindings p)) p)
           | None => Thrown (out_of_range id) p
           end.

Definition bind_entry (binding : basic_match_fields * pointer) : M unit :=
  let id := field_id binding.1 in
  slot <- at_ id ;;
  ASSERT (negb (to_bool slot)) (already_bound id) ;;
  at_put id binding.2.

Fixpoint bind (new_bindings : binding_list) : M unit :=
  match new_bindings with
  | [] => ret tt
  | binding :: rest => bind_entry binding ;; bind rest
  end.

Definition rebind_entry (binding : basic_match_fields * pointer) : M unit :=
  let id := field_id binding.1 in
  slot <- at_ id ;;
  ASSERT (to_bool slot) (not_yet_bound id) ;;
  at_put id binding.2.

Fixpoint rebind (new_bindings : binding_list) : M unit :=
  match new_bindings with
  | [] => ret tt
  | binding :: rest => rebind_entry binding ;; rebind rest
  end.

(** ** DHCP options *)

(** One iteration of the [for] loop of [parse_dhcp], from the test of
    the loop condition to the [++i] of the loop header; [continue] is the
    rest of the loop, entered with the new values of [i] and [flag].
    [options] is the offset of [dhcp->options], [limit] is
    [data_len - 34].  Every dereference of the source is one [read8]. *)
Definition dhcp_iteration (continue : N -> bool -> M unit)
    (options limit i : N) (flag : bool) : M unit :=
  if i <=? limit then
    let tmp := options + i in
    if flag then
      c <- read8 tmp ;;
      if c =? 0xFF then ret tt
      else
        key <- read8 tmp ;;
        code <- read8 tmp ;;
        len <- read8 (tmp + 1) ;;
        update (fun p => set_dhcp_options
                  (<[key := mk_dhcp_opt code len (packet (tmp + 2))]>
                     (dhcp_options p)) p) ;;
        len' <- read8 (tmp + 1) ;;
        continue (i + (len' + 1) + 1) true
    else
      found <-
        andalso (c <- read8 tmp ;; ret (c =? 0x63))
       (andalso (if i + 1 <=? limit
                 then c <- read8 (tmp + 1) ;; ret (c =? 0x82)
                 else ret false)
       (andalso (if i + 2 <=? limit
                 then c <- read8 (tmp + 2) ;; ret (c =? 0x53)
                 else ret false)
                (if i + 3 <=? limit
                 then c <- read8 (tmp + 3) ;; ret (c =? 0x63)
                 else ret false))) ;;
      if found
      then continue (i + 3 + 1) true
      else continue (i + 1) false
  else ret tt.

(** The loop, one iteration per unit of fuel.  [i] grows with every
    iteration and the loop ends when it passes [limit], so
    [S (N.to_nat limit)] units are enough from [i = 0]
    ([dhcp_scan_fuel_irrelevant] below). *)
Fixpoint dhcp_scan (fuel : nat) (options limit i : N) (flag : bool) : M unit :=
  match fuel with
  | O => ret tt
  | S fuel' => dhcp_iteration (dhcp_scan fuel' options limit) options limit i flag
  end.

Definition parse_dhcp (data data_len : N) : M unit :=
  if dhcp_hdr.sizeof <=? data_len then
    bind [ (DHCP_OP, packet (data + dhcp_hdr.op));
           (DHCP_XID, packet (data + dhcp_hdr.xid));
           (DHCP_CIADDR, packet (data + dhcp_hdr.ciaddr));
           (DHCP_YIADDR, packet (data + dhcp_hdr.yiaddr));
           (DHCP_CHADDR, packet (data + dhcp_hdr.chaddr)) ] ;;
    dhcp_scan (S (N.to_nat (data_len - 34)))
              (data + dhcp_hdr.options) (data_len - 34) 0 false
  else ret tt.

Definition get_dhcp_option (code : N) (p : PacketParser) : dhcp_opt :=
  match dhcp_options p !! code with
  | None => dhcp_opt_empty
  | Some o => o
  end.

(** ** The layered parser

    Lengths and offsets ([size_t], pointer differences) are numbers of
    [N]: every subtraction of the source stands behind a comparison that
    keeps it from wrapping, and the sums stay below a buffer length plus
    a few hundred, far from 2^64. *)

Definition parse_l4 (protocol : N) (data data_len : N) : M unit :=
  if protocol =? 0x06 then
    if tcp_hdr.sizeof <=? data_len then
      bind [ (TCP_SRC, packet (data + tcp_hdr.src));
             (TCP_DST, packet (data + tcp_hdr.dst)) ]
    else ret tt
  else if protocol =? 0x11 then
    if udp_hdr.sizeof <=? data_len then
      bind [ (UDP_SRC, packet (data + udp_hdr.src));
             (UDP_DST, packet (data + udp_hdr.dst)) ] ;;
      if udp_hdr.header_length <? data_len then
        is_dhcp <- andalso (s <- read16 (data + udp_hdr.src) ;; ret (s =? 68))
                           (d <- read16 (data + udp_hdr.dst) ;; ret (d =? 67)) ;;
        if is_dhcp
        then parse_dhcp (data + udp_hdr.header_length)
                        (data_len - udp_hdr.header_length)
        else ret tt
      else ret tt
    else ret tt
  else ret tt.

Definition parse_l3 (eth_type : N) (data data_len : N) : M unit :=
  if eth_type =? 0x0800 then
    if ipv4_hdr.sizeof <=? data_len then
      bind [ (IP_PROTO, packet (data + ipv4_hdr.protocol));
             (IPV4_SRC, packet (data + ipv4_hdr.src));
             (IPV4_DST, packet (data + ipv4_hdr.dst)) ] ;;
      hl <- ipv4_header_length data ;;
      if hl <? data_len then
        protocol <- read8 (data + ipv4_hdr.protocol) ;;
        hl1 <- ipv4_header_length data ;;
        hl2 <- ipv4_header_length data ;;
        parse_l4 protocol (data + hl1) (data_len - hl2)
      else ret tt
    else ret tt
  else if eth_type =? 0x0806 then
    if arp_hdr.sizeof <=? data_len then
      invalid <-
        orelse (v <- read16 (data + arp_hdr.htype) ;; ret (negb (v =? 1)))
       (orelse (v <- read16 (data + arp_hdr.ptype) ;; ret (negb (v =? 0x0800)))
       (orelse (v <- read8 (data + arp_hdr.hlen) ;; ret (negb (v =? 6)))
               (v <- read8 (data + arp_hdr.plen) ;; ret (negb (v =? 4))))) ;;
      if invalid then ret tt
      else
        bind [ (ARP_OP, packet (data + arp_hdr.oper));
               (ARP_SHA, packet (data + arp_hdr.sha));
               (ARP_THA, packet (data + arp_hdr.tha));
               (ARP_SPA, packet (data + arp_hdr.spa));
               (ARP_TPA, packet (data + arp_hdr.tpa)) ]
    else ret tt
  else ret tt.

Definition parse_l2 (data data_len : N) : M unit :=
  if ethernet_hdr.sizeof <=? data_len then
    eth_type <- read16 (data + ethernet_hdr.type) ;;
    if eth_type =? 0x8100 then
      update (set_vlan_tagged true) ;;
      bind [ (ETH_TYPE, packet (data + dot1q_hdr.type));
             (ETH_SRC, packet (data + dot1q_hdr.src));
             (ETH_DST, packet (data + dot1q_hdr.dst));
             (VLAN_VID, packet (data + dot1q_hdr.tci)) ] ;;
      l3_type <- read16 (data + dot1q_hdr.type) ;;
      parse_l3 l3_type
               (data + ethernet_hdr.header_length + 4)
               (data_len - ethernet_hdr.header_length)
    else
      update (set_vlan_tagged false) ;;
      bind [ (ETH_TYPE, packet (data + ethernet_hdr.type));
             (ETH_SRC, packet (data + ethernet_hdr.src));
             (ETH_DST, packet (data + ethernet_hdr.dst));
             (VLAN_VID, nullptr) ] ;;
      l3_type <- read16 (data + ethernet_hdr.type) ;;
      parse_l3 l3_type
               (data + ethernet_hdr.header_length + 0)
               (data_len - ethernet_hdr.header_length)
  else ret tt.

(** ** Construction *)

(** Modelled from the spec: the [in_port] member is declared in the
    absent class header; the ingress port is bound to its own canonical
    field, which the accessor reads as big-endian bits, so the member is
    taken to hold the 32-bit port number most significant byte first. *)
Definition store_in_port (h : memory) (port : N) : memory :=
  store_be h this_in_port 0 4 port.

Definition in_port_ptr : pointer := ptr this_in_port 0.

(** The member initialisers and [bindings.fill(nullptr)]. *)
Definition PacketParser_init (h : memory) (pi : PacketIn) : PacketParser :=
  {| data := pi_data pi;
     data_len := pi_data_len pi;
     bindings := replicate bindings_size nullptr;
     vlan_tagged := None;
     dhcp_options := ∅;
     heap := store_in_port h (pi_in_port pi);
     trace := [] |}.

(** [PacketParser::PacketParser(pi)], run over the heap [h]. *)
Definition PacketParser_ctor (h : memory) (pi : PacketIn) : outcome unit :=
  (bind [ (IN_PORT, in_port_ptr) ] ;;
   match pi_data pi with
   | Some d => parse_l2 d (pi_data_len pi)
   | None => ret tt
   end) (PacketParser_init h pi).

(** ** Field accessor *)

Definition access (t : oxm_type) : M pointer :=
  ASSERT (type_ns t =? OPENFLOW_BASIC) (unsupported_ns (type_ns t)) ;;
  b <- get bindings ;;
  ASSERT ((type_id t <? length b)%nat && to_bool (b !!! type_id t))
         (unsupported_field (type_id t)) ;;
  ret (b !!! type_id t).

Definition load (mask : oxm_mask) : M oxm_field :=
  q <- access (mask_type mask) ;;
  h <- get heap ;;
  let value_bits := bits_from_buffer (type_nbits (mask_type mask)) h q in
  ret (value_and_mask (mask_type mask) value_bits mask).

Definition modify (patch : oxm_field) : M unit :=
  current <- load (exact_mask (field_type patch)) ;;
  let updated := apply_patch current patch in
  q <- access (field_type patch) ;;
  update (fun p => set_heap (to_buffer (type_nbits (field_type updated))
                                       (value_bits updated) (heap p) q) p).

Definition vlanTagged (p : PacketParser) : option bool := vlan_tagged p.

Definition total_bytes (p : PacketParser) : N := data_len p.

(** ** Serialisation *)

(** [std::memmove(dst, src, n)]: the [n] bytes at [src], as they were
    before the call, end up at [dst], whether the two areas overlap or
    not.  A call with a null pointer is outside the rules of the
    language; the model copies nothing then. *)
Definition memmove (dst src : pointer) (n : N) (h : memory) : memory :=
  match dst, src with
  | ptr bd od, ptr bs os =>
      fun b a =>
        if decide (b = bd /\ od <= a < od + n) then h bs (os + (a - od)) else h b a
  | _, _ => h
  end.

(** The member [data] as a pointer. *)
Definition data_ptr (p : PacketParser) : pointer :=
  match data p with
  | Some d => packet d
  | None => nullptr
  end.

Definition serialize_to (buffer_size : N) (buffer : pointer) : M N :=
  fun p =>
    let copied := N.min (data_len p) buffer_size in
    Done copied (set_heap (memmove buffer (data_ptr p) copied (heap p)) p).

(** ** Vocabulary of the statements *)

(** The table after the assignments of a binding list, in order. *)
Definition assign (t : list pointer) (l : binding_list) : list pointer :=
  foldl (fun t b => <[field_id b.1 := b.2]> t) t l.

(** Slot [i] holds a non-null pointer. *)
Definition bound_slot (t : list pointer) (i : nat) : Prop :=
  exists b off, t !! i = Some (ptr b off).

(** Slot [i] exists and holds the null pointer. *)
Definition unbound_slot (t : list pointer) (i : nat) : Prop :=
  t !! i = Some nullptr.

Definition unbound (F : list basic_match_fields) (p : PacketParser) : Prop :=
  forall f, f ∈ F -> unbound_slot (bindings p) (field_id f).

(** [c], run from [p], returns normally in a state satisfying [Q]. *)
Definition returns {A} (c : M A) (p : PacketParser)
    (Q : A -> PacketParser -> Prop) : Prop :=
  match c p with
  | Done a p' => Q a p'
  | Thrown _ _ => False
  end.

(** What a parsing layer may change: the slots of the fields [F], the
    option table and the trace; the heap, the flag and every other slot
    stay. *)
Record evolves (F : list basic_match_fields) (p p' : PacketParser) : Prop := {
  ev_heap : heap p' = heap p;
  ev_vlan_tagged : vlan_tagged p' = vlan_tagged p;
  ev_length : length (bindings p') = length (bindings p);
  ev_slots : forall i, (forall f, f ∈ F -> field_id f <> i) ->
                       bindings p' !! i = bindings p !! i
}.

(** The fields each layer binds, with those of the layers below it. *)
Definition dhcp_fields : list basic_match_fields :=
  [DHCP_OP; DHCP_XID; DHCP_CIADDR; DHCP_YIADDR; DHCP_CHADDR].
Definition l4_fields : list basic_match_fields :=
  [TCP_SRC; TCP_DST; UDP_SRC; UDP_DST] ++ dhcp_fields.
Definition arp_fields : list basic_match_fields :=
  [ARP_OP; ARP_SHA; ARP_THA; ARP_SPA; ARP_TPA].
Definition l3_fields : list basic_match_fields :=
  [IP_PROTO; IPV4_SRC; IPV4_DST] ++ arp_fields ++ l4_fields.
Definition l2_fields : list basic_match_fields :=
  [ETH_TYPE; ETH_SRC; ETH_DST; VLAN_VID].

(** The object once the constructor has bound the ingress port, before
    it looks at the packet. *)
Definition started (h : memory) (pi : PacketIn) : PacketParser :=
  set_bindings (assign (bindings (PacketParser_init h pi)) [ (IN_PORT, in_port_ptr) ])
               (PacketParser_init h pi).

(** The binding lists of the two branches of [parse_l2]. *)
Definition dot1q_bindings (d : N) : binding_list :=
  [ (ETH_TYPE, packet (d + dot1q_hdr.type));
    (ETH_SRC, packet (d + dot1q_hdr.src));
    (ETH_DST, packet (d + dot1q_hdr.dst));
    (VLAN_VID, packet (d + dot1q_hdr.tci)) ].
Definition ethernet_bindings (d : N) : binding_list :=
  [ (ETH_TYPE, packet (d + ethernet_hdr.type));
    (ETH_SRC, packet (d + ethernet_hdr.src));
    (ETH_DST, packet (d + ethernet_hdr.dst));
    (VLAN_VID, nullptr) ].

(** The bytes [bytes] stand in the packet from offset [off] on. *)
Definition holds (h : memory) (off : N) (bytes : list N) : Prop :=
  forall k x, bytes !! k = Some x -> Byte.to_N (h pi_buffer (off + N.of_nat k)) = x.

(** A list of options, each a code and its value bytes, and its
    encoding as (code, length, value) triples. *)
Fixpoint encode_options (opts : list (N * list N)) : list N :=
  match opts with
  | [] => []
  | (c, v) :: rest => c :: N.of_nat (length v) :: v ++ encode_options rest
  end.

(** A well-formed option: its code is not the terminator and its length
    fits the length byte. *)
Definition well_formed_option (o : N * list N) : Prop :=
  o.1 <> 0xFF /\ (length o.2 < 256)%nat.

(** The option table after scanning the triples of [opts] that start at
    offset [pos], over the table [m]. *)
Fixpoint scanned (pos : N) (opts : list (N * list N)) (m : gmap N dhcp_opt)
    : gmap N dhcp_opt :=
  match opts with
  | [] => m
  | (c, v) :: rest =>
      scanned (pos + 2 + N.of_nat (length v)) rest
              (<[c := mk_dhcp_opt c (N.of_nat (length v)) (packet (pos + 2))]> m)
  end.

(** The 12-bit VLAN id of a 16-bit TCI (3 bits of priority, 1
    drop-eligible bit, 12 bits of VLAN id), and its priority. *)
Definition tci_vid (tci : N) : N := tci mod 2 ^ 12.
Definition tci_pcp (tci : N) : N := tci / 2 ^ 13.

(** The 16-bit big-endian word of the packet at [off]. *)
Definition be16 (h : memory) (off : N) : N := load_be h pi_buffer off 2.

(** ** Vocabulary of the statements about any packet-in *)

(** Every packet offset read so far lies in [lo, hi). *)
Definition reads_within (lo hi : N) (p : PacketParser) : Prop :=
  Forall (fun o => lo <= o < hi) (trace p).

(** What a layer run from [p] to [p'] read: nothing outside
    [lo, hi + 2), and, if the DHCP layer was not entered, nothing outside
    [lo, hi) with the option table as it was. *)
Definition quiet (lo hi : N) (p p' : PacketParser) : Prop :=
  reads_within lo (hi + 2) p' /\
  (unbound_slot (bindings p') (field_id DHCP_OP) ->
   reads_within lo hi p' /\ dhcp_options p' = dhcp_options p).

(** The binding lists the layers pass to [bind], one after the other, as
    a function of the bytes of the packet: what [parse_dhcp],
    [parse_l4], [parse_l3] and [parse_l2] bind when run on [len] bytes
    at [d] ([parse_l2_lays] and the lemmas before it). *)
Definition dhcp_bindings (d len : N) : binding_list :=
  if dhcp_hdr.sizeof <=? len then
    [ (DHCP_OP, packet (d + dhcp_hdr.op));
      (DHCP_XID, packet (d + dhcp_hdr.xid));
      (DHCP_CIADDR, packet (d + dhcp_hdr.ciaddr));
      (DHCP_YIADDR, packet (d + dhcp_hdr.yiaddr));
      (DHCP_CHADDR, packet (d + dhcp_hdr.chaddr)) ]
  else [].

Definition l4_bindings (h : memory) (protocol d len : N) : binding_list :=
  if protocol =? 0x06 then
    if tcp_hdr.sizeof <=? len then
      [ (TCP_SRC, packet (d + tcp_hdr.src)); (TCP_DST, packet (d + tcp_hdr.dst)) ]
    else []
  else if protocol =? 0x11 then
    if udp_hdr.sizeof <=? len then
      [ (UDP_SRC, packet (d + udp_hdr.src)); (UDP_DST, packet (d + udp_hdr.dst)) ]
      ++ (if (udp_hdr.header_length <? len)
             && (be16 h (d + udp_hdr.src) =? 68)
             && (be16 h (d + udp_hdr.dst) =? 67)
          then dhcp_bindings (d + udp_hdr.header_length) (len - udp_hdr.header_length)
          else [])
    else []
  else [].

(** [ihl * 4] of the IPv4 header at [d]. *)
Definition ihl4 (h : memory) (d : N) : N :=
  Byte.to_N (h pi_buffer (d + ipv4_hdr.ihl_version)) mod 16 * 4.

(** The four checks of the ARP header at [d]. *)
Definition arp_valid (h : memory) (d : N) : bool :=
  (be16 h (d + arp_hdr.htype) =? 1)
  && (be16 h (d + arp_hdr.ptype) =? 0x0800)
  && (Byte.to_N (h pi_buffer (d + arp_hdr.hlen)) =? 6)
  && (Byte.to_N (h pi_buffer (d + arp_hdr.plen)) =? 4).

Definition l3_bindings (h : memory) (eth_type d len : N) : binding_list :=
  if eth_type =? 0x0800 then
    if ipv4_hdr.sizeof <=? len then
      [ (IP_PROTO, packet (d + ipv4_hdr.protocol));
        (IPV4_SRC, packet (d + ipv4_hdr.src));
        (IPV4_DST, packet (d + ipv4_hdr.dst)) ]
      ++ (if ihl4 h d <? len
          then l4_bindings h (Byte.to_N (h pi_buffer (d + ipv4_hdr.protocol)))
                           (d + ihl4 h d) (len - ihl4 h d)
          else [])
    else []
  else if eth_type =? 0x0806 then
    if (arp_hdr.sizeof <=? len) && arp_valid h d then
      [ (ARP_OP, packet (d + arp_hdr.oper));
        (ARP_SHA, packet (d + arp_hdr.sha));
        (ARP_THA, packet (d + arp_hdr.tha));
        (ARP_SPA, packet (d + arp_hdr.spa));
        (ARP_TPA, packet (d + arp_hdr.tpa)) ]
    else []
  else [].

(** The frame at [d] carries an 802.1Q tag. *)
Definition tagged (h : memory) (d : N) : bool :=
  be16 h (d + ethernet_hdr.type) =? 0x8100.

Definition l2_bindings (h : memory) (d len : N) : binding_list :=
  if ethernet_hdr.sizeof <=? len then
    if tagged h d then
      dot1q_bindings d
      ++ l3_bindings h (be16 h (d + dot1q_hdr.type)) (d + 18) (len - 14)
    else
      ethernet_bindings d
      ++ l3_bindings h (be16 h (d + ethernet_hdr.type)) (d + 14) (len - 14)
  else [].

(** [p'] is [p] with the bindings [l] added; the heap is the same. *)
Definition lays (l : binding_list) (p p' : PacketParser) : Prop :=
  bindings p' = assign (bindings p) l /\ heap p' = heap p.

(** [c] leaves the members [data] and [data_len] alone, whether it
    returns or throws. *)
Definition keeps {A} (c : M A) : Prop :=
  forall p, data (final (c p)) = data p /\ data_len (final (c p)) = data_len p.

(** The pointer of the last entry for [f] in a binding list. *)
Fixpoint last_binding (f : basic_match_fields) (l : binding_list) : option pointer :=
  match l with
  | [] => None
  | b :: rest =>
      match last_binding f rest with
      | Some q => Some q
      | None => if decide (b.1 = f) then Some b.2 else None
      end
  end.

(** The type handed to the network layer and the offset where its
    header starts: the inner type and 18 bytes into a tagged frame, the
    ethertype and 14 bytes into any other. *)
Definition l3_type (h : memory) (d : N) : N :=
  if tagged h d then be16 h (d + dot1q_hdr.type) else be16 h (d + ethernet_hdr.type).

Definition l3_offset (h : memory) (d : N) : N :=
  if tagged h d then d + 18 else d + 14.

(** Where the transport header starts and how many bytes are counted
    from there, for an IPv4 frame: the network-layer offset plus
    [ihl * 4], and what is left of the length given to the network
    layer. *)
Definition l4_offset (h : memory) (d : N) : N :=
  l3_offset h d + ihl4 h (l3_offset h d).

Definition l4_len (h : memory) (d len : N) : N :=
  len - 14 - ihl4 h (l3_offset h d).

(** [f] gets a non-null pointer from the binding list [l]. *)
Definition laid (l : binding_list) (f : basic_match_fields) : bool :=
  match last_binding f l with
  | Some (ptr _ _) => true
  | _ => false
  end.

(** The fields of one header each. *)
Definition ipv4_fields : list basic_match_fields := [IP_PROTO; IPV4_SRC; IPV4_DST].
Definition tcp_fields : list basic_match_fields := [TCP_SRC; TCP_DST].
Definition udp_fields : list basic_match_fields := [UDP_SRC; UDP_DST].
Definition eth_fields : list basic_match_fields := [ETH_TYPE; ETH_SRC; ETH_DST].

(** For a predicate [B] saying which fields are bound: a bound field of
    [F] brings every field of [G] with it; no field of [F] is bound
    together with a field of [G]. *)
Definition brings (B : basic_match_fields -> Prop) (F G : list basic_match_fields) : Prop :=
  Forall (fun f => Forall (fun g => B f -> B g) G) F.

Definition excludes (B : basic_match_fields -> Prop) (F G : list basic_match_fields) : Prop :=
  Forall (fun f => Forall (fun g => B f -> ~ B g) G) F.

(** The bound fields follow the protocol stack: a field of a layer is
    bound only together with the fields of the layer below, the fields
    of one header are bound together, and ARP excludes IPv4 as TCP
    excludes UDP and DHCP. *)
Definition layered (B : basic_match_fields -> Prop) : Prop :=
  brings B (VLAN_VID :: l3_fields) eth_fields /\
  brings B l4_fields ipv4_fields /\
  brings B dhcp_fields udp_fields /\
  brings B eth_fields eth_fields /\
  brings B ipv4_fields ipv4_fields /\
  brings B arp_fields arp_fields /\
  brings B tcp_fields tcp_fields /\
  brings B udp_fields udp_fields /\
  brings B dhcp_fields dhcp_fields /\
  excludes B arp_fields (ipv4_fields ++ l4_fields) /\
  excludes B tcp_fields (udp_fields ++ dhcp_fields).

(** [c] keeps the invariant [I] of the object, whether it returns or
    throws. *)
Definition preserves (I : PacketParser -> Prop) {A} (c : M A) : Prop :=
  forall p, I p -> I (final (c p)).

(** The entry [e] stored under [key] was taken from the packet at
    [pos]: the code byte there is [key] and is not the end marker, the
    next byte is the length, the value starts after it; the code byte
    was read. *)
Definition option_at (h : memory) (tr : list N) (key : N) (e : dhcp_opt) : Prop :=
  exists pos,
    pos ∈ tr /\
    Byte.to_N (h pi_buffer pos) = key /\ key <> 0xFF /\
    e = mk_dhcp_opt key (Byte.to_N (h pi_buffer (pos + 1))) (packet (pos + 2)).

Definition sound_options (p : PacketParser) : Prop :=
  map_Forall (option_at (heap p) (trace p)) (dhcp_options p).

(** The four bytes of the magic cookie were read at [pos]. *)
Definition cookie_read (p : PacketParser) : Prop :=
  exists pos,
    pos ∈ trace p /\ pos + 3 ∈ trace p /\ holds (heap p) pos dhcp_cookie.

(** The table has entries only if the cookie was read. *)
Definition options_need_cookie (p : PacketParser) : Prop :=
  dhcp_options p = ∅ \/ cookie_read p.

(** Injective numbering of the enumerators, all inside the table: what
    the absent declarations of the enumeration and of the [bindings]
    array provide. *)
Hypothesis field_id_inj : forall f g, field_id f = field_id g -> f = g.
Hypothesis field_id_lt : forall f, (field_id f < bindings_size)%nat.

(** ** The monad *)

Lemma returns_and_then {A B} (c : M A) (k : A -> M B) p Q :
  returns c p (fun a p' => returns (k a) p' Q) ->
  returns (and_then c k) p Q.
Proof. unfold returns, and_then. destruct (c p); auto. Qed.

Lemma returns_weaken {A} (c : M A) p (Q Q' : A -> PacketParser -> Prop) :
  returns c p Q -> (forall a p', Q a p' -> Q' a p') -> returns c p Q'.
Proof. unfold returns. destruct (c p); auto. Qed.

Lemma returns_done {A} (c : M A) p Q :
  returns c p Q <-> exists a p', c p = Done a p' /\ Q a p'.
Proof.
  unfold returns. split.
  - destruct (c p) as [a p'|e p']; [eauto | tauto].
  - intros (a & p' & -> & HQ). exact HQ.
Qed.

(** ** bind and rebind *)

Lemma bind_app (l1 l2 : binding_list) p :
  bind (l1 ++ l2) p = and_then (bind l1) (fun _ => bind l2) p.
Proof.
  revert p. induction l1 as [|b l1 IH]; intros p; simpl; [reflexivity|].
  unfold and_then. destruct (bind_entry b p) as [[] p1|e p1]; [|reflexivity].
  rewrite IH. reflexivity.
Qed.

Lemma rebind_app (l1 l2 : binding_list) p :
  rebind (l1 ++ l2) p = and_then (rebind l1) (fun _ => rebind l2) p.
Proof.
  revert p. induction l1 as [|b l1 IH]; intros p; simpl; [reflexivity|].
  unfold and_then. destruct (rebind_entry b p) as [[] p1|e p1]; [|reflexivity].
  rewrite IH. reflexivity.
Qed.

Lemma bind_entry_unbound b p :
  unbound_slot (bindings p) (field_id b.1) ->
  bind_entry b p = Done tt (set_bindings (<[field_id b.1 := b.2]> (bindings p)) p).
Proof.
  unfold unbound_slot, bind_entry, and_then, at_, at_put. intros H.
  rewrite H. simpl. rewrite H. reflexivity.
Qed.

Lemma bind_entry_bound b p :
  bound_slot (bindings p) (field_id b.1) ->
  bind_entry b p = Thrown (already_bound (field_id b.1)) p.
Proof.
  unfold bind_entry, and_then, at_. intros (blk & off & H).
  rewrite H. reflexivity.
Qed.

Lemma rebind_entry_bound b p :
  bound_slot (bindings p) (field_id b.1) ->
  rebind_entry b p = Done tt (set_bindings (<[field_id b.1 := b.2]> (bindings p)) p).
Proof.
  unfold rebind_entry, and_then, at_, at_put. intros (blk & off & H).
  rewrite H. simpl. rewrite H. reflexivity.
Qed.

Lemma rebind_entry_unbound b p :
  unbound_slot (bindings p) (field_id b.1) ->
  rebind_entry b p = Thrown (not_yet_bound (field_id b.1)) p.
Proof.
  unfold unbound_slot, rebind_entry, and_then, at_. intros H.
  rewrite H. reflexivity.
Qed.

Lemma assign_app t (l1 l2 : binding_list) :
  assign t (l1 ++ l2) = assign (assign t l1) l2.
Proof. apply foldl_app. Qed.

Lemma assign_length t (l : binding_list) : length (assign t l) = length t.
Proof.
  revert t. induction l as [|b l IH]; intros t; simpl; [reflexivity|].
  unfold assign in *. simpl. rewrite IH. apply length_insert.
Qed.

Lemma assign_other t (l : binding_list) i :
  (forall b, b ∈ l -> field_id b.1 <> i) -> assign t l !! i = t !! i.
Proof.
  revert t. induction l as [|b l IH]; intros t H; [reflexivity|].
  unfold assign in *. simpl. rewrite IH.
  - apply list_lookup_insert_ne. apply H. left.
  - intros b' Hb'. apply H. right. exact Hb'.
Qed.

Lemma assign_last t (pre post : binding_list) f q :
  (forall b, b ∈ post -> field_id b.1 <> field_id f) ->
  (field_id f < length t)%nat ->
  assign t (pre ++ (f, q) :: post) !! field_id f = Some q.
Proof.
  intros Hpost Hlt. rewrite assign_app.
  change (assign (assign t pre) ((f, q) :: post))
    with (assign (<[field_id f := q]> (assign t pre)) post).
  rewrite assign_other by exact Hpost.
  apply list_lookup_insert_eq. rewrite assign_length. exact Hlt.
Qed.

Lemma bind_all_unbound (l : binding_list) p :
  (forall pre b post, l = pre ++ b :: post ->
     unbound_slot (assign (bindings p) pre) (field_id b.1)) ->
  bind l p = Done tt (set_bindings (assign (bindings p) l) p).
Proof.
  revert p. induction l as [|b l IH]; intros p H.
  - destruct p; reflexivity.
  - simpl. unfold and_then.
    rewrite bind_entry_unbound by exact (H [] b l eq_refl).
    rewrite IH; [reflexivity|].
    intros pre b' post ->. exact (H (b :: pre) b' post eq_refl).
Qed.

Lemma rebind_all_bound (l : binding_list) p :
  (forall pre b post, l = pre ++ b :: post ->
     bound_slot (assign (bindings p) pre) (field_id b.1)) ->
  rebind l p = Done tt (set_bindings (assign (bindings p) l) p).
Proof.
  revert p. induction l as [|b l IH]; intros p H.
  - destruct p; reflexivity.
  - simpl. unfold and_then.
    rewrite rebind_entry_bound by exact (H [] b l eq_refl).
    rewrite IH; [reflexivity|].
    intros pre b' post ->. exact (H (b :: pre) b' post eq_refl).
Qed.

(** C8. [bind] walks the list in order: at an entry whose slot holds a
    non-null pointer it throws the "already binded" assertion, leaving the
    earlier entries assigned; if every entry finds its slot null, it
    returns with the table assigned entry by entry.  [rebind] is the
    mirror image: it throws "unbinded" at an entry whose slot is null and
    otherwise assigns.  [assign] is the in-order assignment: the last
    entry for a slot decides it, unlisted slots keep their pointer. *)
Theorem bind_rebind_contract (l : binding_list) (p : PacketParser) :
  (forall pre b post p1,
      l = pre ++ b :: post -> bind pre p = Done tt p1 ->
      bound_slot (bindings p1) (field_id b.1) ->
      bind l p = Thrown (already_bound (field_id b.1)) p1) /\
  ((forall pre b post, l = pre ++ b :: post ->
      unbound_slot (assign (bindings p) pre) (field_id b.1)) ->
   bind l p = Done tt (set_bindings (assign (bindings p) l) p)) /\
  (forall pre b post p1,
      l = pre ++ b :: post -> rebind pre p = Done tt p1 ->
      unbound_slot (bindings p1) (field_id b.1) ->
      rebind l p = Thrown (not_yet_bound (field_id b.1)) p1) /\
  ((forall pre b post, l = pre ++ b :: post ->
      bound_slot (assign (bindings p) pre) (field_id b.1)) ->
   rebind l p = Done tt (set_bindings (assign (bindings p) l) p)) /\
  (forall i, (forall b, b ∈ l -> field_id b.1 <> i) ->
      assign (bindings p) l !! i = bindings p !! i) /\
  (forall pre f q post,
      l = pre ++ (f, q) :: post ->
      (forall b, b ∈ post -> field_id b.1 <> field_id f) ->
      (field_id f < length (bindings p))%nat ->
      assign (bindings p) l !! field_id f = Some q).
Proof.
  repeat split.
  - intros pre b post p1 -> Hpre Hb.
    rewrite bind_app. unfold and_then. rewrite Hpre. simpl.
    unfold and_then. rewrite bind_entry_bound by exact Hb. reflexivity.
  - apply bind_all_unbound.
  - intros pre b post p1 -> Hpre Hb.
    rewrite rebind_app. unfold and_then. rewrite Hpre. simpl.
    unfold and_then. rewrite rebind_entry_unbound by exact Hb. reflexivity.
  - apply rebind_all_bound.
  - apply assign_other.
  - intros pre f q post -> Hpost Hlt. apply assign_last; assumption.
Qed.

(** ** Running the primitive steps *)

Lemma returns_ret {A} (a : A) p (Q : A -> PacketParser -> Prop) :
  Q a p -> returns (ret a) p Q.
Proof. exact id. Qed.

Lemma returns_update f p (Q : unit -> PacketParser -> Prop) :
  Q tt (f p) -> returns (update f) p Q.
Proof. exact id. Qed.

Lemma returns_read8 off p (Q : N -> PacketParser -> Prop) :
  Q (Byte.to_N (heap p pi_buffer off)) (log_read off p) ->
  returns (read8 off) p Q.
Proof. exact id. Qed.

Lemma be16_bytes h off :
  be16 h off = Byte.to_N (h pi_buffer off) * 256 + Byte.to_N (h pi_buffer (off + 1)).
Proof. unfold be16. simpl. lia. Qed.

Lemma returns_read16 off p (Q : N -> PacketParser -> Prop) :
  Q (be16 (heap p) off) (log_read (off + 1) (log_read off p)) ->
  returns (read16 off) p Q.
Proof. rewrite be16_bytes. exact id. Qed.

Lemma returns_ipv4_header_length d p (Q : N -> PacketParser -> Prop) :
  Q (Byte.to_N (heap p pi_buffer (d + ipv4_hdr.ihl_version)) mod 16 * 4)
    (log_read (d + ipv4_hdr.ihl_version) p) ->
  returns (ipv4_header_length d) p Q.
Proof. exact id. Qed.

Lemma returns_andalso (c1 c2 : M bool) p (Q : bool -> PacketParser -> Prop) :
  returns c1 p (fun b p1 => if b then returns c2 p1 Q else Q false p1) ->
  returns (andalso c1 c2) p Q.
Proof.
  intros H. apply returns_and_then. eapply returns_weaken; [exact H|].
  intros [] p1 H1; exact H1.
Qed.

Lemma returns_orelse (c1 c2 : M bool) p (Q : bool -> PacketParser -> Prop) :
  returns c1 p (fun b p1 => if b then Q true p1 else returns c2 p1 Q) ->
  returns (orelse c1 c2) p Q.
Proof.
  intros H. apply returns_and_then. eapply returns_weaken; [exact H|].
  intros [] p1 H1; exact H1.
Qed.

(** ** Frames *)

Lemma evolves_refl F p : evolves F p p.
Proof. split; reflexivity. Qed.

Lemma evolves_log_read F p0 p off :
  evolves F p0 p -> evolves F p0 (log_read off p).
Proof. intros [H1 H2 H3 H4]. split; assumption. Qed.

Lemma evolves_set_dhcp_options F p0 p o :
  evolves F p0 p -> evolves F p0 (set_dhcp_options o p).
Proof. intros [H1 H2 H3 H4]. split; assumption. Qed.

Lemma evolves_assign F p0 p (l : binding_list) :
  evolves F p0 p -> Forall (fun f => f ∈ F) l.*1 ->
  evolves F p0 (set_bindings (assign (bindings p) l) p).
Proof.
  intros [H1 H2 H3 H4] Hl. split; simpl; try assumption.
  - rewrite assign_length. exact H3.
  - intros i Hi. rewrite assign_other; [apply H4, Hi|].
    intros b Hb. apply Hi. rewrite Forall_forall in Hl. apply Hl.
    apply list_elem_of_fmap. exists b. split; [reflexivity | exact Hb].
Qed.

Lemma unbound_assign G p (l : binding_list) :
  unbound G p -> Forall (fun f => f ∉ G) l.*1 ->
  unbound G (set_bindings (assign (bindings p) l) p).
Proof.
  intros HG Hl f Hf. unfold unbound_slot. simpl.
  rewrite assign_other; [apply HG, Hf|].
  intros b Hb Heq. apply field_id_inj in Heq. subst f.
  rewrite Forall_forall in Hl. apply (Hl b.1); [|exact Hf].
  apply list_elem_of_fmap. exists b. split; [reflexivity | exact Hb].
Qed.

Lemma unbound_subseteq G G' p : G' ⊆ G -> unbound G p -> unbound G' p.
Proof. intros Hsub HG f Hf. apply HG, Hsub, Hf. Qed.

Lemma returns_bind (l : binding_list) p (Q : unit -> PacketParser -> Prop) :
  NoDup l.*1 -> unbound l.*1 p ->
  Q tt (set_bindings (assign (bindings p) l) p) ->
  returns (bind l) p Q.
Proof.
  intros Hnd Hun HQ. unfold returns. rewrite bind_all_unbound; [exact HQ|].
  intros pre b post ->. unfold unbound_slot.
  rewrite assign_other.
  - apply Hun. rewrite fmap_app, fmap_cons. apply elem_of_app. right. left.
  - intros b' Hb' Heq. apply field_id_inj in Heq.
    rewrite fmap_app, fmap_cons in Hnd. apply NoDup_app in Hnd as (_ & Hdis & _).
    apply (Hdis b'.1).
    + apply list_elem_of_fmap. exists b'. split; [reflexivity | exact Hb'].
    + rewrite Heq. left.
Qed.

Lemma unbound_log_read G p off : unbound G p -> unbound G (log_read off p).
Proof. exact id. Qed.

Ltac run_det :=
  lazymatch goal with
  | |- returns (and_then _ _) _ _ => apply returns_and_then
  | |- returns (read8 _) _ _ => apply returns_read8
  | |- returns (read16 _) _ _ => apply returns_read16
  | |- returns (ipv4_header_length _) _ _ => apply returns_ipv4_header_length
  | |- returns (update _) _ _ => apply returns_update
  | |- returns (andalso _ _) _ _ => apply returns_andalso
  | |- returns (orelse _ _) _ _ => apply returns_orelse
  | |- returns (ret _) _ _ => apply returns_ret
  end.

Ltac run_step :=
  first [ run_det
        | lazymatch goal with
          | |- returns (if ?b then _ else _) _ _ => destruct b eqn:?
          | |- if ?b then _ else _ => destruct b eqn:?
          end ].

Ltac frame :=
  repeat first [ assumption
               | apply evolves_log_read
               | apply evolves_set_dhcp_options
               | apply unbound_log_read ].

Ltac fields := apply (bool_decide_unpack _); vm_compute; reflexivity.

(** ** The layers never throw and touch only their own slots *)

Lemma dhcp_scan_evolves F p0 fuel options limit i flag p :
  evolves F p0 p ->
  returns (dhcp_scan fuel options limit i flag) p (fun _ p' => evolves F p0 p').
Proof.
  revert i flag p. induction fuel as [|fuel IH]; intros i flag p Hev.
  - exact Hev.
  - cbn [dhcp_scan]. unfold dhcp_iteration. cbv zeta.
    repeat run_step; try (apply IH); frame.
Qed.

Lemma parse_dhcp_evolves F p0 d len p :
  Forall (fun f => f ∈ F) dhcp_fields ->
  evolves F p0 p -> unbound dhcp_fields p ->
  returns (parse_dhcp d len) p (fun _ p' => evolves F p0 p').
Proof.
  intros HF Hev Hun. unfold parse_dhcp. repeat run_step; [|frame].
  apply returns_bind; [fields | exact Hun |].
  apply dhcp_scan_evolves, evolves_assign; assumption.
Qed.

Lemma Forall_elem_of_subseteq (F G G' : list basic_match_fields) :
  Forall (fun f => f ∈ F) G -> G' ⊆ G -> Forall (fun f => f ∈ F) G'.
Proof. rewrite !Forall_forall. intros H Hsub f Hf. apply H, Hsub, Hf. Qed.

Ltac unbound_tac :=
  repeat apply unbound_log_read;
  first [ eapply unbound_subseteq; [|eassumption]; fields
        | apply unbound_assign; [unbound_tac | fields] ].

Ltac evolves_tac :=
  repeat first [ assumption
               | apply evolves_log_read
               | apply evolves_set_dhcp_options
               | apply evolves_assign;
                 [ | eapply Forall_elem_of_subseteq; [eassumption | fields] ] ].

Lemma parse_l4_evolves F p0 protocol d len p :
  Forall (fun f => f ∈ F) l4_fields ->
  evolves F p0 p -> unbound l4_fields p ->
  returns (parse_l4 protocol d len) p (fun _ p' => evolves F p0 p').
Proof.
  intros HF Hev Hun. unfold parse_l4. repeat run_step; try (frame; fail).
  - apply returns_bind; [fields | unbound_tac | evolves_tac].
  - apply returns_bind; [fields | unbound_tac |].
    repeat run_step; try (evolves_tac; fail).
    apply parse_dhcp_evolves; [ | evolves_tac | unbound_tac ].
    eapply Forall_elem_of_subseteq; [exact HF | fields].
Qed.

Lemma parse_l3_evolves F p0 eth_type d len p :
  Forall (fun f => f ∈ F) l3_fields ->
  evolves F p0 p -> unbound l3_fields p ->
  returns (parse_l3 eth_type d len) p (fun _ p' => evolves F p0 p').
Proof.
  intros HF Hev Hun. unfold parse_l3. repeat run_step; try (frame; fail).
  - apply returns_bind; [fields | unbound_tac |].
    repeat run_step; try (evolves_tac; fail).
    apply parse_l4_evolves; [ | evolves_tac | unbound_tac ].
    eapply Forall_elem_of_subseteq; [exact HF | fields].
  - apply returns_bind; [fields | unbound_tac | evolves_tac].
Qed.

(** An ARP header that fails one of the four checks: [parse_l3] stops
    without a binding and without an error. *)
Lemma parse_l3_arp_invalid F p0 d len p :
  evolves F p0 p ->
  arp_hdr.sizeof <= len ->
  be16 (heap p) (d + arp_hdr.htype) <> 1 \/
  be16 (heap p) (d + arp_hdr.ptype) <> 0x0800 \/
  Byte.to_N (heap p pi_buffer (d + arp_hdr.hlen)) <> 6 \/
  Byte.to_N (heap p pi_buffer (d + arp_hdr.plen)) <> 4 ->
  returns (parse_l3 0x0806 d len) p (fun _ p' => evolves F p0 p').
Proof.
  intros Hev Hlen Hbad. unfold parse_l3.
  change (0x0806 =? 0x0800) with false. change (0x0806 =? 0x0806) with true.
  cbv iota. repeat run_step; try (frame; fail).
  exfalso. cbn [heap log_read] in *.
  repeat match goal with
         | H : negb _ = false |- _ => apply negb_false_iff, N.eqb_eq in H
         end.
  destruct Hbad as [H|[H|[H|H]]]; contradiction.
Qed.

Lemma parse_l2_short d len p :
  len < ethernet_hdr.sizeof -> parse_l2 d len p = Done tt p.
Proof.
  intros H. unfold parse_l2. apply N.leb_gt in H. rewrite H. reflexivity.
Qed.

Lemma parse_l2_tagged_then d len p (Q : unit -> PacketParser -> Prop) :
  ethernet_hdr.sizeof <= len ->
  be16 (heap p) (d + ethernet_hdr.type) = 0x8100 ->
  unbound l2_fields p ->
  (forall p1,
      evolves [] (set_bindings (assign (bindings p) (dot1q_bindings d))
                               (set_vlan_tagged true p)) p1 ->
      returns (parse_l3 (be16 (heap p) (d + dot1q_hdr.type))
                        (d + ethernet_hdr.header_length + 4)
                        (len - ethernet_hdr.header_length)) p1 Q) ->
  returns (parse_l2 d len) p Q.
Proof.
  intros Hlen Hty Hun HQ. unfold parse_l2.
  apply N.leb_le in Hlen. rewrite Hlen.
  run_step. run_step. rewrite Hty. change (0x8100 =? 0x8100) with true. cbv iota.
  run_step. run_step. run_step.
  apply returns_bind; [fields | unbound_tac |].
  run_step. run_step. apply HQ.
  repeat apply evolves_log_read. split; reflexivity.
Qed.

Lemma parse_l2_untagged_then d len p (Q : unit -> PacketParser -> Prop) :
  ethernet_hdr.sizeof <= len ->
  be16 (heap p) (d + ethernet_hdr.type) <> 0x8100 ->
  unbound l2_fields p ->
  (forall p1,
      evolves [] (set_bindings (assign (bindings p) (ethernet_bindings d))
                               (set_vlan_tagged false p)) p1 ->
      returns (parse_l3 (be16 (heap p) (d + ethernet_hdr.type))
                        (d + ethernet_hdr.header_length + 0)
                        (len - ethernet_hdr.header_length)) p1 Q) ->
  returns (parse_l2 d len) p Q.
Proof.
  intros Hlen Hty Hun HQ. unfold parse_l2.
  apply N.leb_le in Hlen. rewrite Hlen.
  run_step. run_step. apply N.eqb_neq in Hty. rewrite Hty. cbv iota.
  run_step. run_step. run_step.
  apply returns_bind; [fields | unbound_tac |].
  run_step. run_step. apply HQ.
  repeat apply evolves_log_read. split; reflexivity.
Qed.

Lemma evolves_widen F p0 p1 : evolves [] p0 p1 -> evolves F p0 p1.
Proof.
  intros [H1 H2 H3 H4]. split; try assumption.
  intros i _. apply H4. intros f Hf. inversion Hf.
Qed.

Lemma evolves_unbound F G p0 p1 :
  evolves F p0 p1 -> Forall (fun f => f ∉ F) G -> unbound G p0 -> unbound G p1.
Proof.
  intros [_ _ _ H] HG Hun f Hf. unfold unbound_slot. rewrite H; [apply Hun, Hf|].
  intros g Hg Heq. apply field_id_inj in Heq. subst g.
  rewrite Forall_forall in HG. exact (HG f Hf Hg).
Qed.


Lemma parse_l2_untagged d len p :
  ethernet_hdr.sizeof <= len ->
  be16 (heap p) (d + ethernet_hdr.type) <> 0x8100 ->
  unbound (l2_fields ++ l3_fields) p ->
  returns (parse_l2 d len) p
    (fun _ p' => evolves l3_fields
       (set_bindings (assign (bindings p) (ethernet_bindings d))
                     (set_vlan_tagged false p)) p').
Proof.
  intros Hlen Hty Hun.
  apply parse_l2_untagged_then; [assumption | assumption | unbound_tac |].
  intros p1 H1. apply parse_l3_evolves.
  - apply Forall_forall. auto.
  - apply evolves_widen, H1.
  - eapply (evolves_unbound []); [exact H1 | apply Forall_forall; intros f _ Hf; inversion Hf |].
    apply (unbound_assign l3_fields (set_vlan_tagged false p) (ethernet_bindings d)); [|fields].
    eapply unbound_subseteq; [|exact Hun]. fields.
Qed.

(** ** Construction *)

Lemma started_bindings h pi :
  bindings (started h pi)
  = <[field_id IN_PORT := in_port_ptr]> (replicate bindings_size nullptr).
Proof. reflexivity. Qed.

Lemma started_in_port h pi :
  bindings (started h pi) !! field_id IN_PORT = Some in_port_ptr.
Proof.
  rewrite started_bindings. apply list_lookup_insert_eq.
  rewrite length_replicate. apply field_id_lt.
Qed.

Lemma started_other h pi i :
  i <> field_id IN_PORT -> (i < bindings_size)%nat ->
  bindings (started h pi) !! i = Some nullptr.
Proof.
  intros Hne Hlt. rewrite started_bindings.
  rewrite list_lookup_insert_ne by congruence.
  apply lookup_replicate_2. exact Hlt.
Qed.

Lemma started_unbound h pi : unbound (l2_fields ++ l3_fields) (started h pi).
Proof.
  intros f Hf. apply started_other; [|apply field_id_lt].
  intros Heq. apply field_id_inj in Heq. subst f. revert Hf. fields.
Qed.

Lemma ctor_started h pi :
  PacketParser_ctor h pi
  = match pi_data pi with
    | Some d => parse_l2 d (pi_data_len pi) (started h pi)
    | None => Done tt (started h pi)
    end.
Proof.
  unfold PacketParser_ctor, and_then.
  rewrite bind_all_unbound.
  - destruct (pi_data pi); reflexivity.
  - intros [|b' pre] b post Heq; [|destruct pre; discriminate].
    injection Heq as <- _. unfold unbound_slot. simpl.
    apply lookup_replicate_2, field_id_lt.
Qed.

Lemma started_heap_packet h pi a : heap (started h pi) pi_buffer a = h pi_buffer a.
Proof.
  simpl. unfold store_in_port, store_be.
  destruct (decide _) as [[H _]|]; [discriminate | reflexivity].
Qed.

Lemma be16_started h pi off : be16 (heap (started h pi)) off = be16 h off.
Proof. rewrite !be16_bytes, !started_heap_packet. reflexivity. Qed.

(** ** The accessor on bound and unbound slots *)

Lemma access_bound t p b off :
  type_ns t = OPENFLOW_BASIC ->
  bindings p !! type_id t = Some (ptr b off) ->
  access t p = Done (ptr b off) p.
Proof.
  intros Hns Hb. unfold access, and_then, get.
  apply N.eqb_eq in Hns. rewrite Hns. simpl.
  rewrite (list_lookup_total_correct _ _ _ Hb).
  apply lookup_lt_Some, Nat.ltb_lt in Hb. rewrite Hb. reflexivity.
Qed.

Lemma access_unbound t p :
  type_ns t = OPENFLOW_BASIC ->
  bindings p !! type_id t = Some nullptr \/ bindings p !! type_id t = None ->
  access t p = Thrown (unsupported_field (type_id t)) p.
Proof.
  intros Hns Hb. unfold access, and_then, get.
  apply N.eqb_eq in Hns. rewrite Hns. simpl. destruct Hb as [Hb|Hb].
  - rewrite (list_lookup_total_correct _ _ _ Hb).
    rewrite andb_false_r. reflexivity.
  - apply lookup_ge_None, Nat.ltb_ge in Hb. rewrite Hb. reflexivity.
Qed.

Lemma access_unsupported_ns t p :
  type_ns t <> OPENFLOW_BASIC ->
  access t p = Thrown (unsupported_ns (type_ns t)) p.
Proof.
  intros Hns. unfold access, and_then.
  apply N.eqb_neq in Hns. rewrite Hns. reflexivity.
Qed.

Lemma load_thrown mask p e :
  access (mask_type mask) p = Thrown e p -> load mask p = Thrown e p.
Proof. intros H. unfold load, and_then. rewrite H. reflexivity. Qed.

Lemma modify_thrown patch p e :
  access (field_type patch) p = Thrown e p -> modify patch p = Thrown e p.
Proof.
  intros H. unfold modify, and_then.
  rewrite (load_thrown (exact_mask (field_type patch)) p e H). reflexivity.
Qed.

(** A slot that holds the null pointer, however it came to hold it, makes
    the three accessors throw the same "Unsupported oxm field" failure. *)
Lemma accessors_unbound t p :
  type_ns t = OPENFLOW_BASIC ->
  unbound_slot (bindings p) (type_id t) ->
  access t p = Thrown (unsupported_field (type_id t)) p /\
  (forall mask, mask_type mask = t ->
     load mask p = Thrown (unsupported_field (type_id t)) p) /\
  (forall patch, field_type patch = t ->
     modify patch p = Thrown (unsupported_field (type_id t)) p).
Proof.
  intros Hns Hun.
  assert (Ha : access t p = Thrown (unsupported_field (type_id t)) p)
    by (apply access_unbound; [exact Hns | left; exact Hun]).
  split; [exact Ha|]. split.
  - intros mask <-. apply load_thrown, Ha.
  - intros patch <-. apply modify_thrown, Ha.
Qed.

(** ** The constructor on short, untagged, tagged and ARP frames *)

(** C5. For a buffer shorter than 14 bytes the constructor returns
    normally having read no byte of the packet; the slot of the
    ingress-port field holds the address of the [in_port] member, and
    every other slot of the table, in particular the slot of every
    protocol field, holds the null pointer. *)
Theorem short_buffer_binds_only_in_port h pi :
  pi_data_len pi < ethernet_hdr.sizeof ->
  exists p,
    PacketParser_ctor h pi = Done tt p /\
    bindings p !! field_id IN_PORT = Some in_port_ptr /\
    (forall f, f <> IN_PORT -> unbound_slot (bindings p) (field_id f)) /\
    (forall i, i <> field_id IN_PORT -> (i < bindings_size)%nat ->
               unbound_slot (bindings p) i) /\
    length (bindings p) = bindings_size /\
    dhcp_options p = ∅ /\
    trace p = [].
Proof.
  intros Hlen. exists (started h pi). split.
  - rewrite ctor_started. destruct (pi_data pi); [|reflexivity].
    apply parse_l2_short, Hlen.
  - split; [apply started_in_port|]. split; [|split; [|split; [|split]]].
    + intros f Hf. apply started_other; [|apply field_id_lt].
      intros Heq. apply Hf, field_id_inj, Heq.
    + intros i Hi Hlt. apply started_other; assumption.
    + rewrite started_bindings, length_insert. apply length_replicate.
    + reflexivity.
    + reflexivity.
Qed.

(** C10. On an untagged frame of at least 14 bytes the constructor
    returns normally (the [bind] of [parse_l2], whose entry for the VLAN
    id carries the null pointer, finds the slot null and succeeds), the
    VLAN-id slot holds the null pointer afterwards, exactly what it held
    before any layer ran, and [access], [load] and [modify] of the
    VLAN-id field throw "Unsupported oxm field": the very failure
    [access] throws on the object before any layer has run. *)
Theorem untagged_vlan_vid_absent h pi d :
  pi_data pi = Some d ->
  ethernet_hdr.sizeof <= pi_data_len pi ->
  be16 h (d + ethernet_hdr.type) <> 0x8100 ->
  exists p,
    PacketParser_ctor h pi = Done tt p /\
    (VLAN_VID, nullptr) ∈ ethernet_bindings d /\
    returns (bind (ethernet_bindings d)) (started h pi)
            (fun _ p1 => unbound_slot (bindings p1) (field_id VLAN_VID)) /\
    unbound_slot (bindings p) (field_id VLAN_VID) /\
    bindings p !! field_id VLAN_VID = bindings (started h pi) !! field_id VLAN_VID /\
    forall t, type_ns t = OPENFLOW_BASIC -> type_id t = field_id VLAN_VID ->
      (access t p = Thrown (unsupported_field (type_id t)) p /\
       (forall mask, mask_type mask = t ->
          load mask p = Thrown (unsupported_field (type_id t)) p) /\
       (forall patch, field_type patch = t ->
          modify patch p = Thrown (unsupported_field (type_id t)) p)) /\
      access t (started h pi)
      = Thrown (unsupported_field (type_id t)) (started h pi).
Proof.
  intros Hd Hlen Hty.
  assert (Hun := started_unbound h pi).
  assert (Hnull : forall t : list pointer,
             (field_id VLAN_VID < length t)%nat ->
             assign t (ethernet_bindings d) !! field_id VLAN_VID = Some nullptr).
  { intros t Hlt.
    apply (assign_last t [ (ETH_TYPE, packet (d + ethernet_hdr.type));
                           (ETH_SRC, packet (d + ethernet_hdr.src));
                           (ETH_DST, packet (d + ethernet_hdr.dst)) ] []);
      [|exact Hlt]. intros b Hb. inversion Hb. }
  assert (Hsize : length (bindings (started h pi)) = bindings_size).
  { rewrite started_bindings, length_insert. apply length_replicate. }
  pose proof (parse_l2_untagged d (pi_data_len pi) (started h pi) Hlen) as Hrun.
  rewrite be16_started in Hrun. specialize (Hrun Hty Hun).
  apply returns_done in Hrun as ([] & p & Hp & Hev).
  assert (Hslot : unbound_slot (bindings p) (field_id VLAN_VID)).
  { unfold unbound_slot. rewrite (ev_slots _ _ _ Hev).
    - apply (Hnull (bindings (started h pi))). rewrite Hsize. apply field_id_lt.
    - intros f Hf Heq. apply field_id_inj in Heq. subst f. revert Hf. fields. }
  exists p. split; [rewrite ctor_started, Hd; exact Hp|].
  split; [unfold ethernet_bindings; set_solver|].
  split.
  { apply returns_bind; [fields | eapply unbound_subseteq; [|exact Hun]; fields |].
    apply (Hnull (bindings (started h pi))). rewrite Hsize. apply field_id_lt. }
  split; [exact Hslot|].
  assert (Hnever : unbound_slot (bindings (started h pi)) (field_id VLAN_VID))
    by (apply Hun; fields).
  split; [rewrite Hslot, Hnever; reflexivity|].
  intros t Hns Hid. split.
  - apply accessors_unbound; [exact Hns | rewrite Hid; exact Hslot].
  - apply access_unbound; [exact Hns|]. left. rewrite Hid. exact Hnever.
Qed.
Lemma be16_heap_eq h h' off :
  (forall a, h' pi_buffer a = h pi_buffer a) -> be16 h' off = be16 h off.
Proof. intros H. rewrite !be16_bytes, !H. reflexivity. Qed.

Lemma evolves_started_packet F h pi p a :
  evolves F (started h pi) p -> heap p pi_buffer a = h pi_buffer a.
Proof. intros [H _ _ _]. rewrite H. apply started_heap_packet. Qed.

(** C7. A frame that reaches ARP parsing (ethertype 0x0806, directly or
    behind an 802.1Q tag, and at least 28 bytes of remaining length as
    the code counts it) whose ARP header fails one of the four checks:
    the constructor returns normally, every ARP slot holds the null
    pointer, and [access], [load] and [modify] of an ARP field throw
    "Unsupported oxm field". *)
Theorem invalid_arp_binds_nothing h pi d base :
  pi_data pi = Some d ->
  ethernet_hdr.sizeof <= pi_data_len pi ->
  (be16 h (d + ethernet_hdr.type) = 0x0806 /\ base = d + 14) \/
  (be16 h (d + ethernet_hdr.type) = 0x8100 /\
   be16 h (d + dot1q_hdr.type) = 0x0806 /\ base = d + 18) ->
  arp_hdr.sizeof <= pi_data_len pi - ethernet_hdr.header_length ->
  be16 h (base + arp_hdr.htype) <> 1 \/
  be16 h (base + arp_hdr.ptype) <> 0x0800 \/
  Byte.to_N (h pi_buffer (base + arp_hdr.hlen)) <> 6 \/
  Byte.to_N (h pi_buffer (base + arp_hdr.plen)) <> 4 ->
  exists p,
    PacketParser_ctor h pi = Done tt p /\
    forall f, f ∈ arp_fields ->
      unbound_slot (bindings p) (field_id f) /\
      forall t, type_ns t = OPENFLOW_BASIC -> type_id t = field_id f ->
        access t p = Thrown (unsupported_field (type_id t)) p /\
        (forall mask, mask_type mask = t ->
           load mask p = Thrown (unsupported_field (type_id t)) p) /\
        (forall patch, field_type patch = t ->
           modify patch p = Thrown (unsupported_field (type_id t)) p).
Proof.
  intros Hd Hlen Hty Harp Hbad.
  assert (Hun := started_unbound h pi).
  assert (Hrun : exists l2 flag,
             (forall b, b ∈ l2 -> b.1 ∈ l2_fields) /\
             returns (parse_l2 d (pi_data_len pi)) (started h pi)
               (fun _ p => evolves []
                  (set_bindings (assign (bindings (started h pi)) l2)
                                (set_vlan_tagged flag (started h pi))) p)).
  { assert (Hbad' : forall p1 l2 flag,
               evolves [] (set_bindings (assign (bindings (started h pi)) l2)
                             (set_vlan_tagged flag (started h pi))) p1 ->
               be16 (heap p1) (base + arp_hdr.htype) <> 1 \/
               be16 (heap p1) (base + arp_hdr.ptype) <> 0x0800 \/
               Byte.to_N (heap p1 pi_buffer (base + arp_hdr.hlen)) <> 6 \/
               Byte.to_N (heap p1 pi_buffer (base + arp_hdr.plen)) <> 4).
    { intros p1 l2 flag [Hh _ _ _].
      assert (Hp : forall a, heap p1 pi_buffer a = h pi_buffer a)
        by (intros a; rewrite Hh; apply started_heap_packet).
      rewrite !(be16_heap_eq h (heap p1)), !Hp by exact Hp. exact Hbad. }
    destruct Hty as [[Hty ->]|(Hty & Hin & ->)].
    - exists (ethernet_bindings d), false. split.
      { intros b Hb. unfold ethernet_bindings in Hb.
        repeat (apply elem_of_cons in Hb as [->|Hb]); try (inversion Hb; fail);
          simpl; fields. }
      apply parse_l2_untagged_then;
        [exact Hlen | rewrite be16_started, Hty; discriminate
        | eapply unbound_subseteq; [|exact Hun]; fields |].
      intros p1 H1. rewrite be16_started, Hty.
      replace (d + ethernet_hdr.header_length + 0) with (d + 14)
        by (unfold ethernet_hdr.header_length, ethernet_hdr.sizeof; lia).
      apply parse_l3_arp_invalid; [exact H1 | exact Harp | exact (Hbad' _ _ _ H1)].
    - exists (dot1q_bindings d), true. split.
      { intros b Hb. unfold dot1q_bindings in Hb.
        repeat (apply elem_of_cons in Hb as [->|Hb]); try (inversion Hb; fail);
          simpl; fields. }
      apply parse_l2_tagged_then;
        [exact Hlen | rewrite be16_started; exact Hty
        | eapply unbound_subseteq; [|exact Hun]; fields |].
      intros p1 H1. rewrite be16_started, Hin.
      replace (d + ethernet_hdr.header_length + 4) with (d + 18)
        by (unfold ethernet_hdr.header_length, ethernet_hdr.sizeof; lia).
      apply parse_l3_arp_invalid; [exact H1 | exact Harp | exact (Hbad' _ _ _ H1)]. }
  destruct Hrun as (l2 & flag & Hl2 & Hrun).
  apply returns_done in Hrun as ([] & p & Hp & Hev).
  exists p. split; [rewrite ctor_started, Hd; exact Hp|].
  intros f Hf.
  assert (Hslot : unbound_slot (bindings p) (field_id f)).
  { unfold unbound_slot. rewrite (ev_slots _ _ _ Hev) by (intros g Hg; inversion Hg).
    cbn [bindings set_bindings]. rewrite assign_other.
    - assert (Hsub : arp_fields ⊆ l2_fields ++ l3_fields) by fields.
      apply Hun, Hsub, Hf.
    - intros b Hb Heq. apply field_id_inj in Heq. apply Hl2 in Hb. rewrite Heq in Hb.
      assert (Hdis : Forall (fun g => g ∉ l2_fields) arp_fields) by fields.
      rewrite Forall_forall in Hdis. exact (Hdis f Hf Hb). }
  split; [exact Hslot|].
  intros t Hns Hid. apply accessors_unbound; [exact Hns | rewrite Hid; exact Hslot].
Qed.
Lemma load_bound mask p b off :
  type_ns (mask_type mask) = OPENFLOW_BASIC ->
  bindings p !! type_id (mask_type mask) = Some (ptr b off) ->
  load mask p
  = Done (value_and_mask (mask_type mask)
            (bits_from_buffer (type_nbits (mask_type mask)) (heap p) (ptr b off))
            mask) p.
Proof.
  intros Hns Hb. unfold load, and_then.
  rewrite (access_bound _ _ _ _ Hns Hb). reflexivity.
Qed.



(** ** Big-endian words in the heap *)

Lemma to_N_byte_of_N v : Byte.to_N (byte_of_N v) = v mod 256.
Proof.
  unfold byte_of_N. destruct (Byte.of_N (v mod 256)) as [b|] eqn:E.
  - apply Byte.to_of_N, E.
  - apply Byte.of_N_None_iff in E.
    pose proof (N.mod_lt v 256). lia.
Qed.

Lemma load_be_ext h h' b off n :
  (forall a, off <= a < off + N.of_nat n -> h' b a = h b a) ->
  load_be h' b off n = load_be h b off n.
Proof.
  revert off. induction n as [|n IH]; intros off H; [reflexivity|].
  cbn [load_be]. rewrite H by lia. rewrite IH; [reflexivity|].
  intros a Ha. apply H. lia.
Qed.

Lemma store_be_other h b off n x b' a :
  ~ (b' = b /\ off <= a < off + N.of_nat n) ->
  store_be h b off n x b' a = h b' a.
Proof. intros H. unfold store_be. destruct (decide _); [contradiction | reflexivity]. Qed.

Lemma load_store_be h b off n x :
  load_be (store_be h b off n x) b off n = x mod 2 ^ (8 * N.of_nat n).
Proof.
  revert off. induction n as [|n IH]; intros off.
  - cbn [load_be]. change (2 ^ (8 * N.of_nat 0)) with 1. rewrite N.mod_1_r. reflexivity.
  - cbn [load_be].
    rewrite (load_be_ext (store_be h b (off + 1) n x)).
    + rewrite IH. unfold store_be at 1.
      destruct (decide _) as [_|H]; [|exfalso; apply H; split; [reflexivity | lia]].
      rewrite to_N_byte_of_N.
      replace (N.of_nat (S n) - 1 - (off - off)) with (N.of_nat n) by lia.
      replace (8 * N.of_nat (S n)) with (8 * N.of_nat n + 8) by lia.
      rewrite N.pow_add_r. change (2 ^ 8) with 256.
      rewrite N.Div0.mod_mul_r. lia.
    + intros a Ha. unfold store_be.
      destruct (decide _) as [_|H]; [|exfalso; apply H; split; [reflexivity | lia]].
      destruct (decide _) as [_|H]; [|exfalso; apply H; split; [reflexivity | lia]].
      f_equal. f_equal. f_equal. f_equal. lia.
Qed.

Lemma pad_spec w : w + pad w = 8 * N.of_nat (nbytes w).
Proof.
  unfold pad, nbytes. rewrite N2Nat.id.
  pose proof (N.div_mod (w + 7) 8). pose proof (N.mod_lt (w + 7) 8). lia.
Qed.

Lemma modify_bound patch p b off :
  type_ns (field_type patch) = OPENFLOW_BASIC ->
  bindings p !! type_id (field_type patch) = Some (ptr b off) ->
  modify patch p
  = Done tt
      (set_heap
         (to_buffer (type_nbits (field_type patch))
            (N.lor (N.ldiff (N.land (bits_from_buffer (type_nbits (field_type patch))
                                       (heap p) (ptr b off))
                                    (N.ones (type_nbits (field_type patch))))
                            (field_mask_bits patch))
                   (N.land (value_bits patch) (field_mask_bits patch)))
            (heap p) (ptr b off)) p).
Proof.
  intros Hns Hb. unfold modify, and_then.
  rewrite (load_bound (exact_mask (field_type patch)) p b off Hns Hb).
  cbn [apply_patch value_and_mask field_type value_bits exact_mask mask_type mask_bits].
  rewrite (access_bound _ _ _ _ Hns Hb). reflexivity.
Qed.

(** C9. [modify] of a field whose slot holds a pointer returns normally;
    in the big-endian word made of the bytes the field spans, a bit of
    the field that the patch's mask selects takes the patch's value bit
    and every other bit of those bytes keeps its value; every byte
    outside that span, in the packet or elsewhere, and the binding table,
    the flag and the option table are unchanged. *)
Theorem modify_patches_masked_bits p patch b off :
  type_ns (field_type patch) = OPENFLOW_BASIC ->
  bindings p !! type_id (field_type patch) = Some (ptr b off) ->
  exists p',
    modify patch p = Done tt p' /\
    bindings p' = bindings p /\
    vlan_tagged p' = vlan_tagged p /\
    dhcp_options p' = dhcp_options p /\
    (forall b' a,
        ~ (b' = b /\ off <= a < off + N.of_nat (nbytes (type_nbits (field_type patch)))) ->
        heap p' b' a = heap p b' a) /\
    (forall k,
        k < 8 * N.of_nat (nbytes (type_nbits (field_type patch))) ->
        N.testbit (load_be (heap p') b off (nbytes (type_nbits (field_type patch)))) k
        = if (pad (type_nbits (field_type patch)) <=? k)
             && N.testbit (field_mask_bits patch)
                          (k - pad (type_nbits (field_type patch)))
          then N.testbit (value_bits patch) (k - pad (type_nbits (field_type patch)))
          else N.testbit (load_be (heap p) b off (nbytes (type_nbits (field_type patch)))) k) /\
    (forall j,
        j < type_nbits (field_type patch) ->
        N.testbit (bits_from_buffer (type_nbits (field_type patch)) (heap p') (ptr b off)) j
        = if N.testbit (field_mask_bits patch) j
          then N.testbit (value_bits patch) j
          else N.testbit (bits_from_buffer (type_nbits (field_type patch))
                                           (heap p) (ptr b off)) j).
Proof.
  intros Hns Hb. rewrite (modify_bound patch p b off Hns Hb).
  set (w := type_nbits (field_type patch)).
  set (n := nbytes w).
  set (m := field_mask_bits patch).
  set (v := value_bits patch).
  eexists. split; [reflexivity|].
  cbn [bindings vlan_tagged dhcp_options heap set_heap to_buffer bits_from_buffer].
  fold n. set (X := load_be (heap p) b off n).
  assert (Hpad : w + pad w = 8 * N.of_nat n) by apply pad_spec.
  assert (Hbits : forall k, k < 8 * N.of_nat n ->
            N.testbit
              (load_be
                 (store_be (heap p) b off n
                    (N.lor
                       (N.shiftl
                          (N.land
                             (N.lor (N.ldiff (N.land (N.shiftr X (pad w)) (N.ones w)) m)
                                    (N.land v m))
                             (N.ones w)) (pad w))
                       (N.land X (N.ones (pad w))))) b off n) k
            = if (pad w <=? k) && N.testbit m (k - pad w)
              then N.testbit v (k - pad w)
              else N.testbit X k).
  { intros k Hk. rewrite load_store_be, N.mod_pow2_bits_low by exact Hk.
    rewrite N.lor_spec, N.land_spec.
    destruct (pad w <=? k) eqn:Hle.
    - apply N.leb_le in Hle.
      rewrite N.shiftl_spec_high' by exact Hle.
      rewrite (N.ones_spec_high (pad w) k) by exact Hle.
      rewrite andb_false_r, orb_false_r.
      rewrite N.land_spec, N.lor_spec, N.ldiff_spec, !N.land_spec.
      rewrite N.shiftr_spec'.
      rewrite (N.ones_spec_low w (k - pad w)) by lia.
      replace (k - pad w + pad w) with k by lia.
      rewrite !andb_true_r. cbn [andb].
      destruct (N.testbit m (k - pad w)), (N.testbit v (k - pad w)),
        (N.testbit X k); reflexivity.
    - apply N.leb_gt in Hle.
      rewrite N.shiftl_spec_low by exact Hle.
      rewrite (N.ones_spec_low (pad w) k) by exact Hle.
      rewrite andb_true_r. reflexivity. }
  repeat split.
  - intros b' a Hout. apply store_be_other, Hout.
  - exact Hbits.
  - intros j Hj. rewrite !N.shiftr_spec'.
    rewrite Hbits by lia.
    replace (pad w <=? j + pad w) with true by (symmetry; apply N.leb_le; lia).
    replace (j + pad w - pad w) with j by lia. reflexivity.
Qed.
(** ** The DHCP option scan *)

Lemma holds_app h off l1 l2 :
  holds h off (l1 ++ l2) ->
  holds h off l1 /\ holds h (off + N.of_nat (length l1)) l2.
Proof.
  intros H. split.
  - intros k x Hk. apply H. rewrite lookup_app_l; [exact Hk|].
    eapply lookup_lt_Some, Hk.
  - intros k x Hk.
    replace (off + N.of_nat (length l1) + N.of_nat k)
      with (off + N.of_nat (length l1 + k)) by lia.
    apply H. rewrite lookup_app_r by lia.
    replace (length l1 + k - length l1)%nat with k by lia. exact Hk.
Qed.

Lemma holds_cons h off x l :
  holds h off (x :: l) ->
  Byte.to_N (h pi_buffer off) = x /\ holds h (off + 1) l.
Proof.
  intros H. split.
  - rewrite <- (H 0%nat x eq_refl). f_equal. f_equal. lia.
  - intros k y Hk. rewrite <- (H (S k) y Hk). f_equal. f_equal. lia.
Qed.

Lemma encode_options_length opts :
  (length opts <= length (encode_options opts))%nat.
Proof.
  induction opts as [|[c v] r IH]; simpl; [lia|].
  rewrite length_app. lia.
Qed.

Lemma scanned_app pos l1 l2 m :
  scanned pos (l1 ++ l2) m
  = scanned (pos + N.of_nat (length (encode_options l1))) l2 (scanned pos l1 m).
Proof.
  revert pos m. induction l1 as [|[c v] r IH]; intros pos m; simpl.
  - f_equal. lia.
  - rewrite IH. f_equal. rewrite length_app. lia.
Qed.

Lemma scanned_other pos opts m c :
  c ∉ opts.*1 -> scanned pos opts m !! c = m !! c.
Proof.
  revert pos m. induction opts as [|[c' v] r IH]; intros pos m Hc; [reflexivity|].
  simpl in *. apply not_elem_of_cons in Hc as [Hne Hc].
  rewrite IH by exact Hc. apply lookup_insert_ne. congruence.
Qed.

Lemma scanned_last pos pre c v post m :
  c ∉ post.*1 ->
  scanned pos (pre ++ (c, v) :: post) m !! c
  = Some (mk_dhcp_opt c (N.of_nat (length v))
            (packet (pos + N.of_nat (length (encode_options pre)) + 2))).
Proof.
  intros Hc. rewrite scanned_app. simpl.
  rewrite scanned_other by exact Hc. apply lookup_insert_eq.
Qed.

Lemma dhcp_scan_options opts fuel options limit i p :
  Forall well_formed_option opts ->
  holds (heap p) (options + i) (encode_options opts ++ [0xFF]) ->
  i + N.of_nat (length (encode_options opts)) <= limit ->
  (length opts < fuel)%nat ->
  returns (dhcp_scan fuel options limit i true) p
    (fun _ p' => heap p' = heap p /\ bindings p' = bindings p /\
                 dhcp_options p' = scanned (options + i) opts (dhcp_options p)).
Proof.
  revert fuel i p. induction opts as [|[c v] r IH]; intros fuel i p Hwf Hmem Hlim Hfuel.
  - destruct fuel as [|fuel]; [simpl in Hfuel; lia|].
    simpl in Hmem. apply holds_cons in Hmem as [Hff _].
    cbn [dhcp_scan]. unfold dhcp_iteration. cbv zeta.
    replace (i <=? limit) with true by (symmetry; apply N.leb_le; simpl in Hlim; lia).
    run_step. run_step. rewrite Hff. change (0xFF =? 0xFF) with true. cbv iota.
    run_step. auto.
  - destruct fuel as [|fuel]; [simpl in Hfuel; lia|].
    apply Forall_cons in Hwf as [[Hne Hlen] Hwf]. simpl in Hne, Hlen.
    simpl in Hmem, Hlim. rewrite length_app in Hlim.
    apply holds_cons in Hmem as [Hc Hmem].
    apply holds_cons in Hmem as [Hl Hmem].
    rewrite <- app_assoc in Hmem. apply holds_app in Hmem as [Hv Hmem].
    cbn [dhcp_scan]. unfold dhcp_iteration. cbv zeta.
    replace (i <=? limit) with true by (symmetry; apply N.leb_le; lia).
    run_step. run_step. rewrite Hc.
    apply N.eqb_neq in Hne. rewrite Hne. cbv iota.
    repeat run_step. cbn [heap log_read set_dhcp_options]. rewrite Hc, Hl.
    eapply returns_weaken.
    + apply IH; [exact Hwf | | lia | simpl in Hfuel; lia].
      cbn [heap log_read set_dhcp_options].
      replace (options + (i + (N.of_nat (length v) + 1) + 1))
        with (options + i + 1 + 1 + N.of_nat (length v)) by lia.
      exact Hmem.
    + intros [] p' (Hh & Hb & Ho). cbn [heap bindings dhcp_options log_read set_dhcp_options] in *.
      split; [exact Hh|]. split; [exact Hb|]. rewrite Ho. simpl.
      f_equal. lia.
Qed.

Lemma encode_options_app l1 l2 :
  encode_options (l1 ++ l2) = encode_options l1 ++ encode_options l2.
Proof.
  induction l1 as [|[c v] r IH]; simpl; [reflexivity|].
  rewrite IH, app_assoc. reflexivity.
Qed.

Lemma dhcp_scan_cookie opts fuel options limit i p :
  Forall well_formed_option opts ->
  holds (heap p) (options + i) (dhcp_cookie ++ encode_options opts ++ [0xFF]) ->
  i + 4 + N.of_nat (length (encode_options opts)) <= limit ->
  (S (length opts) < fuel)%nat ->
  returns (dhcp_scan fuel options limit i false) p
    (fun _ p' => heap p' = heap p /\ bindings p' = bindings p /\
                 dhcp_options p' = scanned (options + i + 4) opts (dhcp_options p)).
Proof.
  intros Hwf Hmem Hlim Hfuel.
  destruct fuel as [|fuel]; [lia|].
  apply holds_cons in Hmem as [H0 Hmem].
  apply holds_cons in Hmem as [H1 Hmem].
  apply holds_cons in Hmem as [H2 Hmem].
  apply holds_cons in Hmem as [H3 Hmem].
  replace (options + i + 1 + 1) with (options + i + 2) in * by lia.
  replace (options + i + 2 + 1) with (options + i + 3) in * by lia.
  cbn [dhcp_scan]. unfold dhcp_iteration. cbv zeta.
  replace (i <=? limit) with true by (symmetry; apply N.leb_le; lia).
  replace (i + 1 <=? limit) with true by (symmetry; apply N.leb_le; lia).
  replace (i + 2 <=? limit) with true by (symmetry; apply N.leb_le; lia).
  replace (i + 3 <=? limit) with true by (symmetry; apply N.leb_le; lia).
  repeat run_det. rewrite H0. change (0x63 =? 0x63) with true. cbv iota.
  repeat run_det. cbn [heap log_read]. rewrite H1.
  change (0x82 =? 0x82) with true. cbv iota.
  repeat run_det. cbn [heap log_read]. rewrite H2.
  change (0x53 =? 0x53) with true. cbv iota.
  repeat run_det. cbn [heap log_read]. rewrite H3.
  change (0x63 =? 0x63) with true. cbv iota.
  eapply returns_weaken.
  - apply (dhcp_scan_options opts); [exact Hwf | | lia | lia].
    cbn [heap log_read].
    replace (options + (i + 3 + 1)) with (options + i + 3 + 1) by lia. exact Hmem.
  - intros [] p' (Hh & Hb & Ho). cbn [heap bindings dhcp_options log_read] in *.
    split; [exact Hh|]. split; [exact Hb|]. rewrite Ho. f_equal. lia.
Qed.

(** Before the cookie the scan moves on byte by byte; bytes other than
    0x63 cannot start a cookie. *)
Lemma dhcp_scan_seek filler opts fuel options limit i p :
  Forall (fun x => x <> 0x63) filler ->
  Forall well_formed_option opts ->
  holds (heap p) (options + i)
        (filler ++ dhcp_cookie ++ encode_options opts ++ [0xFF]) ->
  i + N.of_nat (length filler) + 4 + N.of_nat (length (encode_options opts)) <= limit ->
  (length filler + S (length opts) < fuel)%nat ->
  returns (dhcp_scan fuel options limit i false) p
    (fun _ p' => heap p' = heap p /\ bindings p' = bindings p /\
                 dhcp_options p'
                 = scanned (options + i + N.of_nat (length filler) + 4) opts
                           (dhcp_options p)).
Proof.
  revert fuel i p.
  induction filler as [|x filler IH]; intros fuel i p Hnc Hwf Hmem Hlim Hfuel.
  - simpl in Hmem, Hlim, Hfuel. eapply returns_weaken.
    + apply (dhcp_scan_cookie opts); [exact Hwf | exact Hmem | lia | exact Hfuel].
    + intros [] p' (Hh & Hb & Ho). split; [exact Hh|]. split; [exact Hb|].
      rewrite Ho. f_equal. simpl. lia.
  - destruct fuel as [|fuel]; [simpl in Hfuel; lia|].
    apply Forall_cons in Hnc as [Hx Hnc].
    simpl in Hmem, Hlim, Hfuel. apply holds_cons in Hmem as [H0 Hmem].
    cbn [dhcp_scan]. unfold dhcp_iteration. cbv zeta.
    replace (i <=? limit) with true by (symmetry; apply N.leb_le; lia).
    repeat run_det. rewrite H0. apply N.eqb_neq in Hx. rewrite Hx. cbv iota.
    eapply returns_weaken.
    + apply (IH fuel (i + 1)); [exact Hnc | exact Hwf | | lia | lia].
      cbn [heap log_read].
      replace (options + (i + 1)) with (options + i + 1) by lia. exact Hmem.
    + intros [] p' (Hh & Hb & Ho). cbn [heap bindings dhcp_options log_read] in *.
      split; [exact Hh|]. split; [exact Hb|]. rewrite Ho. f_equal. simpl. lia.
Qed.

(** C6. A UDP datagram from port 68 to port 67 whose payload is the
    34-byte fixed DHCP header, then the magic cookie (after any bytes
    other than 0x63, none in the plain case) and the triples of a
    well-formed option list closed by 0xFF, parsed from an object with an
    empty option table (as the constructor leaves it): [parse_l4] returns
    normally; for every code of the list [get_dhcp_option] returns the
    entry of its last occurrence (the code, the length byte, a view on
    the value bytes), and for a code not in the list it returns the empty
    entry. *)
Theorem dhcp_option_table_last_wins d len p filler opts :
  be16 (heap p) (d + udp_hdr.src) = 68 ->
  be16 (heap p) (d + udp_hdr.dst) = 67 ->
  Forall (fun x => x <> 0x63) filler ->
  Forall well_formed_option opts ->
  holds (heap p) (d + udp_hdr.header_length + dhcp_hdr.sizeof)
        (filler ++ dhcp_cookie ++ encode_options opts ++ [0xFF]) ->
  udp_hdr.header_length + dhcp_hdr.sizeof + N.of_nat (length filler) + 4
    + N.of_nat (length (encode_options opts)) + 1 <= len ->
  unbound l4_fields p ->
  dhcp_options p = ∅ ->
  exists p',
    parse_l4 0x11 d len p = Done tt p' /\
    (forall pre c v post,
        opts = pre ++ (c, v) :: post -> c ∉ post.*1 ->
        get_dhcp_option c p'
        = mk_dhcp_opt c (N.of_nat (length v))
            (packet (d + 42 + N.of_nat (length filler) + 4
                     + N.of_nat (length (encode_options pre)) + 2)) /\
        holds (heap p')
              (d + 42 + N.of_nat (length filler) + 4
               + N.of_nat (length (encode_options pre)) + 2) v) /\
    (forall c, c ∉ opts.*1 -> get_dhcp_option c p' = dhcp_opt_empty).
Proof.
  intros Hsrc Hdst Hnc Hwf Hmem Hlen Hun Hempty.
  unfold udp_hdr.header_length, dhcp_hdr.sizeof in Hmem, Hlen.
  assert (Hrun : returns (parse_l4 0x11 d len) p
            (fun _ p' => heap p' = heap p /\
                         dhcp_options p'
                         = scanned (d + 42 + N.of_nat (length filler) + 4) opts ∅)).
  { unfold parse_l4. change (0x11 =? 0x06) with false. change (0x11 =? 0x11) with true.
    cbv iota. unfold udp_hdr.sizeof, udp_hdr.header_length.
    replace (8 <=? len) with true by (symmetry; apply N.leb_le; lia).
    replace (8 <? len) with true by (symmetry; apply N.ltb_lt; lia).
    run_det. apply returns_bind; [fields | unbound_tac |].
    repeat run_det.
    cbn [heap set_bindings]. rewrite Hsrc. change (68 =? 68) with true. cbv iota.
    repeat run_det.
    cbn [heap log_read set_bindings]. rewrite Hdst. change (67 =? 67) with true. cbv iota.
    unfold parse_dhcp, dhcp_hdr.sizeof, dhcp_hdr.options.
    replace (34 <=? len - 8) with true by (symmetry; apply N.leb_le; lia).
    run_det. apply returns_bind; [fields | unbound_tac |].
    eapply returns_weaken.
    - apply (dhcp_scan_seek filler opts); [exact Hnc | exact Hwf | | lia |].
      + cbn [heap log_read set_bindings]. rewrite N.add_0_r. exact Hmem.
      + pose proof (encode_options_length opts). lia.
    - intros [] p' (Hh & _ & Ho).
      cbn [heap dhcp_options log_read set_bindings] in Hh, Ho.
      split; [exact Hh|]. rewrite Ho, Hempty. f_equal. lia. }
  apply returns_done in Hrun as ([] & p' & Hp' & Hh & Ho).
  exists p'. split; [exact Hp'|]. split.
  - intros pre c v post -> Hc. split.
    { unfold get_dhcp_option. rewrite Ho, scanned_last by exact Hc. reflexivity. }
    rewrite Hh. apply holds_app in Hmem as [_ Hmem].
    apply holds_app in Hmem as [_ Hmem].
    rewrite encode_options_app in Hmem. rewrite <- app_assoc in Hmem.
    apply holds_app in Hmem as [_ Hmem]. simpl in Hmem.
    apply holds_cons in Hmem as [_ Hmem]. apply holds_cons in Hmem as [_ Hmem].
    rewrite <- app_assoc in Hmem. apply holds_app in Hmem as [Hv _].
    replace (d + 42 + N.of_nat (length filler) + 4
             + N.of_nat (length (encode_options pre)) + 2)
      with (d + 8 + 34 + N.of_nat (length filler) + N.of_nat (length dhcp_cookie)
            + N.of_nat (length (encode_options pre)) + 1 + 1)
      by (simpl; lia).
    exact Hv.
  - intros c Hc. unfold get_dhcp_option.
    rewrite Ho, scanned_other by exact Hc. rewrite lookup_empty. reflexivity.
Qed.

(** ** The fuel of the option scan is enough *)

Lemma dhcp_iteration_ext (k1 k2 : N -> bool -> M unit) options limit i flag p :
  (forall i' flag' p', i < i' -> k1 i' flag' p' = k2 i' flag' p') ->
  dhcp_iteration k1 options limit i flag p = dhcp_iteration k2 options limit i flag p.
Proof.
  intros H. unfold dhcp_iteration, andalso, and_then, read8, ret, update.
  destruct (i <=? limit); [|reflexivity]. destruct flag.
  - destruct (_ =? 255); [reflexivity|]. apply H. lia.
  - repeat match goal with
           | |- context [if ?b then _ else _] => destruct b
           end; apply H; lia.
Qed.

Lemma dhcp_scan_past_limit fuel options limit i flag p :
  limit < i -> dhcp_scan fuel options limit i flag p = Done tt p.
Proof.
  intros Hi. destruct fuel as [|fuel]; [reflexivity|].
  cbn [dhcp_scan]. unfold dhcp_iteration.
  apply N.leb_gt in Hi. rewrite Hi. reflexivity.
Qed.

Lemma dhcp_scan_fuel_step fuel options limit i flag p :
  (N.to_nat (limit + 1 - i) <= fuel)%nat ->
  dhcp_scan (S fuel) options limit i flag p = dhcp_scan fuel options limit i flag p.
Proof.
  revert i flag p. induction fuel as [|fuel IH]; intros i flag p Hfuel.
  - apply dhcp_scan_past_limit. lia.
  - change (dhcp_scan (S (S fuel)) options limit i flag p)
      with (dhcp_iteration (dhcp_scan (S fuel) options limit) options limit i flag p).
    change (dhcp_scan (S fuel) options limit i flag p)
      with (dhcp_iteration (dhcp_scan fuel options limit) options limit i flag p).
    apply dhcp_iteration_ext. intros i' flag' p' Hi'. apply IH. lia.
Qed.

(** Any fuel beyond the number of offsets left up to [limit] changes
    nothing: the scan of [parse_dhcp] is the loop run to its end. *)
Lemma dhcp_scan_fuel_irrelevant extra fuel options limit i flag p :
  (N.to_nat (limit + 1 - i) <= fuel)%nat ->
  dhcp_scan (fuel + extra) options limit i flag p
  = dhcp_scan fuel options limit i flag p.
Proof.
  intros Hfuel. induction extra as [|extra IH].
  - rewrite Nat.add_0_r. reflexivity.
  - rewrite Nat.add_succ_r, dhcp_scan_fuel_step by lia. exact IH.
Qed.

(** ** What the constructor reads *)

Lemma returns_conj {A} (c : M A) p (Q1 Q2 : A -> PacketParser -> Prop) :
  returns c p Q1 -> returns c p Q2 -> returns c p (fun a p' => Q1 a p' /\ Q2 a p').
Proof. unfold returns. destruct (c p); auto. Qed.

Lemma reads_within_weaken lo hi hi' p :
  hi <= hi' -> reads_within lo hi p -> reads_within lo hi' p.
Proof.
  intros Hle H. unfold reads_within in *. eapply Forall_impl; [exact H|].
  simpl. intros o Ho. lia.
Qed.

Ltac leb_facts :=
  repeat match goal with
         | H : (_ <=? _) = true |- _ => apply N.leb_le in H
         | H : (_ <=? _) = false |- _ => apply N.leb_gt in H
         | H : (_ <? _) = true |- _ => apply N.ltb_lt in H
         | H : (_ <? _) = false |- _ => apply N.ltb_ge in H
         end;
  repeat match goal with
         | |- context [N.modulo ?a ?b] =>
             let x := fresh "m" in set (x := N.modulo a b) in *; clearbody x
         | H : context [N.modulo ?a ?b] |- _ =>
             let x := fresh "m" in set (x := N.modulo a b) in *; clearbody x
         end.

Ltac reads_tac :=
  unfold reads_within, ipv4_hdr.ihl_version in *;
  cbn [trace log_read set_bindings set_dhcp_options set_vlan_tagged] in *;
  leb_facts;
  repeat (constructor; [lia|]);
  first [ assumption
        | eapply Forall_impl; [eassumption | simpl; intros; lia] ].

Lemma dhcp_scan_reads lo hi fuel options limit i flag p :
  reads_within lo hi p -> lo <= options -> options + limit + 2 <= hi ->
  returns (dhcp_scan fuel options limit i flag) p (fun _ p' => reads_within lo hi p').
Proof.
  revert i flag p. induction fuel as [|fuel IH]; intros i flag p Hr Hlo Hhi.
  - exact Hr.
  - cbn [dhcp_scan]. unfold dhcp_iteration. cbv zeta.
    repeat run_step; try (apply IH; [|assumption|assumption]); reads_tac.
Qed.

Lemma quiet_here lo hi p p' :
  reads_within lo hi p' -> dhcp_options p' = dhcp_options p -> quiet lo hi p p'.
Proof.
  intros Hr Ho. split; [eapply reads_within_weaken; [|exact Hr]; lia|].
  intros _. split; assumption.
Qed.

Lemma quiet_weaken lo hi hi' p p' :
  hi <= hi' -> quiet lo hi p p' -> quiet lo hi' p p'.
Proof.
  intros Hle [H1 H2]. split.
  - eapply reads_within_weaken; [|exact H1]. lia.
  - intros Hun. destruct (H2 Hun) as [H3 H4]. split; [|exact H4].
    eapply reads_within_weaken; [|exact H3]. exact Hle.
Qed.

Lemma parse_dhcp_quiet lo hi d len p :
  unbound dhcp_fields p -> reads_within lo hi p -> lo <= d -> d + len <= hi ->
  returns (parse_dhcp d len) p (fun _ p' => quiet lo hi p p').
Proof.
  intros Hun Hr Hlo Hhi. unfold parse_dhcp.
  destruct (dhcp_hdr.sizeof <=? len) eqn:E.
  - apply N.leb_le in E. unfold dhcp_hdr.sizeof in E.
    apply returns_and_then, returns_bind; [fields | exact Hun |].
    match goal with |- returns _ ?q _ => set (p1 := q) end.
    assert (Hop : bindings p1 !! field_id DHCP_OP = Some (packet (d + dhcp_hdr.op))).
    { apply (assign_last (bindings p) []).
      - intros b Hb Heq. apply field_id_inj in Heq.
        repeat (apply elem_of_cons in Hb as [->|Hb]); try discriminate. inversion Hb.
      - eapply lookup_lt_Some. apply Hun. fields. }
    eapply returns_weaken.
    + apply returns_conj.
      * apply (dhcp_scan_reads lo (hi + 2)).
        -- eapply reads_within_weaken; [|exact Hr]. lia.
        -- unfold dhcp_hdr.options. lia.
        -- unfold dhcp_hdr.options. lia.
      * apply (dhcp_scan_evolves [] p1), evolves_refl.
    + intros [] p' [Hr' Hev]. split; [exact Hr'|].
      intros Hnull. exfalso. unfold unbound_slot in Hnull.
      rewrite (ev_slots _ _ _ Hev) in Hnull by (intros f Hf; inversion Hf).
      rewrite Hop in Hnull. discriminate Hnull.
  - apply quiet_here; [exact Hr | reflexivity].
Qed.

Lemma parse_l4_quiet lo hi protocol d len p :
  unbound l4_fields p -> reads_within lo hi p -> lo <= d -> d + len <= hi ->
  returns (parse_l4 protocol d len) p (fun _ p' => quiet lo hi p p').
Proof.
  intros Hun Hr Hlo Hhi. unfold parse_l4.
  unfold tcp_hdr.sizeof, udp_hdr.sizeof, udp_hdr.header_length, udp_hdr.src, udp_hdr.dst.
  repeat run_step; try (apply quiet_here; [reads_tac | reflexivity]).
  - apply returns_bind; [fields | unbound_tac |].
    apply quiet_here; [reads_tac | reflexivity].
  - apply returns_bind; [fields | unbound_tac |].
    repeat run_step; try (apply quiet_here; [reads_tac | reflexivity]).
    eapply returns_weaken.
    + apply (parse_dhcp_quiet lo hi); first [unbound_tac | reads_tac | (leb_facts; lia)].
    + intros [] p' H. exact H.
Qed.

Lemma parse_l3_quiet lo hi eth_type d len p :
  unbound l3_fields p -> reads_within lo hi p -> lo <= d -> d + len <= hi ->
  returns (parse_l3 eth_type d len) p (fun _ p' => quiet lo hi p p').
Proof.
  intros Hun Hr Hlo Hhi. unfold parse_l3.
  unfold ipv4_hdr.sizeof, ipv4_hdr.protocol, ipv4_hdr.ihl_version, arp_hdr.sizeof,
    arp_hdr.htype, arp_hdr.ptype, arp_hdr.hlen, arp_hdr.plen.
  repeat run_step; try (apply quiet_here; [reads_tac | reflexivity]).
  - apply returns_bind; [fields | unbound_tac |].
    repeat run_step; try (apply quiet_here; [reads_tac | reflexivity]).
    cbn [heap log_read set_bindings] in *.
    eapply returns_weaken.
    + apply (parse_l4_quiet lo hi); first [unbound_tac | reads_tac | (leb_facts; lia)].
    + intros [] p' H. exact H.
  - apply returns_bind; [fields | unbound_tac |].
    apply quiet_here; [reads_tac | reflexivity].
Qed.

Lemma parse_l2_quiet d len p :
  unbound (l2_fields ++ l3_fields) p -> reads_within d (d + len) p ->
  returns (parse_l2 d len) p
    (fun _ p' =>
       quiet d (d + len + (if be16 (heap p) (d + ethernet_hdr.type) =? 0x8100
                           then 4 else 0)) p p').
Proof.
  intros Hun Hr. unfold parse_l2.
  unfold ethernet_hdr.sizeof, ethernet_hdr.header_length, ethernet_hdr.sizeof,
    ethernet_hdr.type, dot1q_hdr.type.
  destruct (14 <=? len) eqn:Hlen.
  - run_step. run_step.
    destruct (be16 (heap p) (d + 12) =? 33024) eqn:Hty.
    + run_step. run_step. run_step.
      apply returns_bind; [fields | unbound_tac |].
      run_step. run_step.
      eapply returns_weaken.
      * apply (parse_l3_quiet d (d + len + 4)); first [unbound_tac | reads_tac | (leb_facts; lia)].
      * intros [] p' H. exact H.
    + run_step. run_step. run_step.
      apply returns_bind; [fields | unbound_tac |].
      run_step. run_step.
      eapply returns_weaken.
      * apply (parse_l3_quiet d (d + len)); first [unbound_tac | reads_tac | (leb_facts; lia)].
      * intros [] p' H. rewrite N.add_0_r. exact H.
  - apply quiet_here; [|reflexivity].
    eapply reads_within_weaken; [|exact Hr]. lia.
Qed.

(** ** What the layers bind *)

Lemma lays_nil p p' : bindings p' = bindings p -> heap p' = heap p -> lays [] p p'.
Proof. intros Hb Hh. split; assumption. Qed.

Lemma evolves_nil_bindings p p' : evolves [] p p' -> bindings p' = bindings p.
Proof.
  intros [_ _ Hlen Hs]. apply list_eq. intros i. apply Hs.
  intros f Hf. inversion Hf.
Qed.

Lemma parse_dhcp_lays d len p :
  unbound dhcp_fields p ->
  returns (parse_dhcp d len) p (fun _ p' => lays (dhcp_bindings d len) p p').
Proof.
  intros Hun. unfold parse_dhcp, dhcp_bindings.
  destruct (dhcp_hdr.sizeof <=? len).
  - apply returns_and_then, returns_bind; [fields | exact Hun |].
    eapply returns_weaken; [apply (dhcp_scan_evolves []), evolves_refl|].
    intros [] p' Hev. split; [apply (evolves_nil_bindings _ _ Hev) | apply (ev_heap _ _ _ Hev)].
  - apply lays_nil; reflexivity.
Qed.

Lemma lays_app l1 l2 p p1 p' :
  lays l1 p p1 -> lays l2 p1 p' -> lays (l1 ++ l2) p p'.
Proof.
  intros [Hb1 Hh1] [Hb2 Hh2]. split.
  - rewrite Hb2, Hb1, assign_app. reflexivity.
  - rewrite Hh2. exact Hh1.
Qed.

Lemma lays_unbound G l p p' :
  lays l p p' -> Forall (fun f => f ∉ G) l.*1 -> unbound G p -> unbound G p'.
Proof.
  intros [Hb _] Hl Hun f Hf. unfold unbound_slot. rewrite Hb.
  rewrite assign_other; [apply Hun, Hf|].
  intros b Hb' Heq. apply field_id_inj in Heq. subst f.
  rewrite Forall_forall in Hl. apply (Hl b.1); [|exact Hf].
  apply list_elem_of_fmap. exists b. split; [reflexivity | exact Hb'].
Qed.

Lemma parse_l4_lays protocol d len p :
  unbound l4_fields p ->
  returns (parse_l4 protocol d len) p
    (fun _ p' => lays (l4_bindings (heap p) protocol d len) p p').
Proof.
  intros Hun. unfold parse_l4, l4_bindings.
  destruct (protocol =? 6); [|destruct (protocol =? 17)].
  - destruct (tcp_hdr.sizeof <=? len); [|apply lays_nil; reflexivity].
    apply returns_bind; [fields | unbound_tac |]. split; reflexivity.
  - destruct (udp_hdr.sizeof <=? len); [|apply lays_nil; reflexivity].
    apply returns_and_then, returns_bind; [fields | unbound_tac |].
    match goal with |- returns _ ?q _ => set (p1 := q) end.
    assert (H1 : lays [ (UDP_SRC, packet (d + udp_hdr.src));
                        (UDP_DST, packet (d + udp_hdr.dst)) ] p p1)
      by (split; reflexivity).
    destruct (udp_hdr.header_length <? len); cbn [andb].
    + repeat run_det. cbn [heap set_bindings p1].
      destruct (be16 (heap p) (d + udp_hdr.src) =? 68); cbn [andb].
      * repeat run_det. cbn [heap log_read set_bindings p1].
        destruct (be16 (heap p) (d + udp_hdr.dst) =? 67).
        -- eapply returns_weaken.
           ++ apply parse_dhcp_lays. subst p1. unbound_tac.
           ++ intros [] p' H. eapply lays_app; [exact H1|].
              destruct H as [Hb Hh]. split; [exact Hb | exact Hh].
        -- apply returns_ret. eapply lays_app; [exact H1|]. apply lays_nil; reflexivity.
      * apply returns_ret. eapply lays_app; [exact H1|]. apply lays_nil; reflexivity.
    + apply returns_ret. eapply lays_app; [exact H1|]. apply lays_nil; reflexivity.
  - apply lays_nil; reflexivity.
Qed.

Lemma parse_l3_lays eth_type d len p :
  unbound l3_fields p ->
  returns (parse_l3 eth_type d len) p
    (fun _ p' => lays (l3_bindings (heap p) eth_type d len) p p').
Proof.
  intros Hun. unfold parse_l3, l3_bindings.
  destruct (eth_type =? 2048); [|destruct (eth_type =? 2054)].
  - destruct (ipv4_hdr.sizeof <=? len); [|apply lays_nil; reflexivity].
    apply returns_and_then, returns_bind; [fields | unbound_tac |].
    match goal with |- returns _ ?q _ => set (p1 := q) end.
    assert (H1 : lays [ (IP_PROTO, packet (d + ipv4_hdr.protocol));
                        (IPV4_SRC, packet (d + ipv4_hdr.src));
                        (IPV4_DST, packet (d + ipv4_hdr.dst)) ] p p1)
      by (split; reflexivity).
    repeat run_det. cbn [heap set_bindings p1]. fold (ihl4 (heap p) d).
    destruct (ihl4 (heap p) d <? len).
    + repeat run_det. cbn [heap log_read set_bindings p1]. fold (ihl4 (heap p) d).
      eapply returns_weaken.
      * apply parse_l4_lays. subst p1. unbound_tac.
      * intros [] p' H. eapply lays_app; [exact H1|].
        destruct H as [Hb Hh]. split; [exact Hb | exact Hh].
    + apply returns_ret. eapply lays_app; [exact H1|]. apply lays_nil; reflexivity.
  - unfold arp_valid.
    destruct (arp_hdr.sizeof <=? len); cbn [andb]; [|apply lays_nil; reflexivity].
    repeat run_det.
    destruct (be16 (heap p) (d + arp_hdr.htype) =? 1); cbn [andb negb];
      [|apply lays_nil; reflexivity].
    repeat run_det. cbn [heap log_read].
    destruct (be16 (heap p) (d + arp_hdr.ptype) =? 2048); cbn [andb negb];
      [|apply lays_nil; reflexivity].
    repeat run_det. cbn [heap log_read].
    destruct (to_N (heap p pi_buffer (d + arp_hdr.hlen)) =? 6); cbn [andb negb];
      [|apply lays_nil; reflexivity].
    repeat run_det. cbn [heap log_read].
    destruct (to_N (heap p pi_buffer (d + arp_hdr.plen)) =? 4); cbn [andb negb];
      [|apply lays_nil; reflexivity].
    apply returns_bind; [fields | unbound_tac |]. split; reflexivity.
  - apply lays_nil; reflexivity.
Qed.

Lemma parse_l2_lays d len p :
  unbound (l2_fields ++ l3_fields) p ->
  returns (parse_l2 d len) p
    (fun _ p' =>
       lays (l2_bindings (heap p) d len) p p' /\
       vlan_tagged p'
       = if ethernet_hdr.sizeof <=? len then Some (tagged (heap p) d) else vlan_tagged p).
Proof.
  intros Hun. unfold parse_l2, l2_bindings, tagged.
  destruct (ethernet_hdr.sizeof <=? len); [|split; [apply lays_nil|]; reflexivity].
  repeat run_det.
  destruct (be16 (heap p) (d + ethernet_hdr.type) =? 33024).
  - repeat run_det. apply returns_bind; [fields | unbound_tac |].
    match goal with |- returns _ ?q _ => set (p1 := q) end.
    assert (H1 : lays (dot1q_bindings d) p p1) by (split; reflexivity).
    repeat run_det. cbn [heap log_read set_bindings set_vlan_tagged p1].
    replace (d + ethernet_hdr.header_length + 4) with (d + 18)
      by (unfold ethernet_hdr.header_length, ethernet_hdr.sizeof; lia).
    change (len - ethernet_hdr.header_length) with (len - 14).
    eapply returns_weaken.
    + apply returns_conj.
      * apply parse_l3_lays. subst p1. unbound_tac.
      * apply (parse_l3_evolves l3_fields p1).
        -- apply Forall_forall. auto.
        -- repeat apply evolves_log_read. apply evolves_refl.
        -- subst p1. unbound_tac.
    + intros [] p' [H Hev]. split.
      * eapply lays_app; [exact H1|]. destruct H as [Hb Hh]. split; [exact Hb | exact Hh].
      * rewrite (ev_vlan_tagged _ _ _ Hev). reflexivity.
  - repeat run_det. apply returns_bind; [fields | unbound_tac |].
    match goal with |- returns _ ?q _ => set (p1 := q) end.
    assert (H1 : lays (ethernet_bindings d) p p1) by (split; reflexivity).
    repeat run_det. cbn [heap log_read set_bindings set_vlan_tagged p1].
    replace (d + ethernet_hdr.header_length + 0) with (d + 14)
      by (unfold ethernet_hdr.header_length, ethernet_hdr.sizeof; lia).
    change (len - ethernet_hdr.header_length) with (len - 14).
    eapply returns_weaken.
    + apply returns_conj.
      * apply parse_l3_lays. subst p1. unbound_tac.
      * apply (parse_l3_evolves l3_fields p1).
        -- apply Forall_forall. auto.
        -- repeat apply evolves_log_read. apply evolves_refl.
        -- subst p1. unbound_tac.
    + intros [] p' [H Hev]. split.
      * eapply lays_app; [exact H1|]. destruct H as [Hb Hh]. split; [exact Hb | exact Hh].
      * rewrite (ev_vlan_tagged _ _ _ Hev). reflexivity.
Qed.

(** ** The members [data] and [data_len] *)

Lemma keeps_and_then {A B} (c : M A) (k : A -> M B) :
  keeps c -> (forall a, keeps (k a)) -> keeps (and_then c k).
Proof.
  intros Hc Hk p. unfold and_then. specialize (Hc p).
  destruct (c p) as [a p1|e p1]; simpl in *.
  - destruct (Hk a p1) as [H1 H2]. destruct Hc as [H3 H4]. split; congruence.
  - exact Hc.
Qed.

Lemma keeps_pure {A} (c : M A) :
  (forall p, data (final (c p)) = data p /\ data_len (final (c p)) = data_len p) ->
  keeps c.
Proof. exact id. Qed.

Ltac keeps_tac :=
  repeat
    (lazymatch goal with
      | |- keeps (and_then _ _) => apply keeps_and_then; [|intros ?]
      | |- keeps (if ?b then _ else _) => destruct b
      | |- keeps (ret _) => intros ?; split; reflexivity
      | |- keeps (throw _) => intros ?; split; reflexivity
      | |- keeps (read8 _) => intros ?; split; reflexivity
      | |- keeps (update _) => intros ?; split; reflexivity
      | |- keeps (get _) => intros ?; split; reflexivity
      | |- keeps (ASSERT _ _) => unfold ASSERT
      | |- keeps (read16 _) => unfold read16
      | |- keeps (ipv4_header_length _) => unfold ipv4_header_length
      | |- keeps (andalso _ _) => unfold andalso
      | |- keeps (orelse _ _) => unfold orelse
      end).

Lemma keeps_at_ id : keeps (at_ id).
Proof. intros p. unfold at_. destruct (bindings p !! id); split; reflexivity. Qed.

Lemma keeps_at_put id q : keeps (at_put id q).
Proof. intros p. unfold at_put. destruct (bindings p !! id); split; reflexivity. Qed.

Lemma keeps_bind l : keeps (bind l).
Proof.
  induction l as [|b l IH]; cbn [bind]; [keeps_tac|].
  apply keeps_and_then; [|intros _; exact IH].
  unfold bind_entry. cbv zeta.
  apply keeps_and_then; [apply keeps_at_|intros slot].
  apply keeps_and_then; [keeps_tac | intros _; apply keeps_at_put].
Qed.

Lemma keeps_rebind l : keeps (rebind l).
Proof.
  induction l as [|b l IH]; cbn [rebind]; [keeps_tac|].
  apply keeps_and_then; [|intros _; exact IH].
  unfold rebind_entry. cbv zeta.
  apply keeps_and_then; [apply keeps_at_|intros slot].
  apply keeps_and_then; [keeps_tac | intros _; apply keeps_at_put].
Qed.

Lemma keeps_dhcp_scan fuel options limit i flag :
  keeps (dhcp_scan fuel options limit i flag).
Proof.
  revert i flag. induction fuel as [|fuel IH]; intros i flag; cbn [dhcp_scan].
  - keeps_tac.
  - unfold dhcp_iteration. cbv zeta. keeps_tac; apply IH.
Qed.

Lemma keeps_parse_dhcp d len : keeps (parse_dhcp d len).
Proof.
  unfold parse_dhcp. keeps_tac; first [apply keeps_bind | apply keeps_dhcp_scan].
Qed.

Lemma keeps_parse_l4 protocol d len : keeps (parse_l4 protocol d len).
Proof.
  unfold parse_l4. keeps_tac; first [apply keeps_bind | apply keeps_parse_dhcp].
Qed.

Lemma keeps_parse_l3 eth_type d len : keeps (parse_l3 eth_type d len).
Proof.
  unfold parse_l3. keeps_tac; first [apply keeps_bind | apply keeps_parse_l4].
Qed.

Lemma keeps_parse_l2 d len : keeps (parse_l2 d len).
Proof.
  unfold parse_l2. keeps_tac; first [apply keeps_bind | apply keeps_parse_l3].
Qed.

(** ** The binding table of a constructed parser *)

Lemma assign_lookup t (l : binding_list) f :
  (field_id f < length t)%nat ->
  assign t l !! field_id f
  = match last_binding f l with Some q => Some q | None => t !! field_id f end.
Proof.
  revert t. induction l as [|b l IH]; intros t Hlt; [reflexivity|].
  change (assign t (b :: l)) with (assign (<[field_id b.1 := b.2]> t) l).
  rewrite IH by (rewrite length_insert; exact Hlt). cbn [last_binding].
  destruct (last_binding f l); [reflexivity|].
  destruct (decide (b.1 = f)) as [->|Hne].
  - apply list_lookup_insert_eq. exact Hlt.
  - apply list_lookup_insert_ne. intros Heq. apply Hne, field_id_inj, Heq.
Qed.

Lemma last_binding_app f (l1 l2 : binding_list) :
  last_binding f (l1 ++ l2)
  = match last_binding f l2 with Some q => Some q | None => last_binding f l1 end.
Proof.
  induction l1 as [|b l1 IH]; cbn [app last_binding].
  - destruct (last_binding f l2); reflexivity.
  - rewrite IH. destruct (last_binding f l2); reflexivity.
Qed.

Lemma last_binding_none f (l : binding_list) :
  f ∉ l.*1 -> last_binding f l = None.
Proof.
  induction l as [|b l IH]; intros Hf; [reflexivity|].
  cbn [last_binding]. rewrite fmap_cons in Hf. apply not_elem_of_cons in Hf as [Hne Hf].
  rewrite (IH Hf). destruct (decide (b.1 = f)); [congruence | reflexivity].
Qed.

Lemma dhcp_bindings_fields d len : (dhcp_bindings d len).*1 ⊆ dhcp_fields.
Proof. unfold dhcp_bindings. destruct (_ <=? _); cbn; fields. Qed.

Lemma l4_bindings_fields h protocol d len : (l4_bindings h protocol d len).*1 ⊆ l4_fields.
Proof.
  unfold l4_bindings.
  destruct (_ =? _); [destruct (_ <=? _); cbn; fields|].
  destruct (_ =? _); [|cbn; fields].
  destruct (_ <=? _); [|cbn; fields].
  rewrite fmap_app. intros f Hf. apply elem_of_app in Hf as [Hf|Hf].
  - revert f Hf. change ([UDP_SRC; UDP_DST] ⊆ l4_fields). fields.
  - destruct (_ && _); [|inversion Hf].
    apply dhcp_bindings_fields in Hf. revert f Hf.
    change (dhcp_fields ⊆ l4_fields). fields.
Qed.

Lemma l3_bindings_fields h eth_type d len : (l3_bindings h eth_type d len).*1 ⊆ l3_fields.
Proof.
  unfold l3_bindings.
  destruct (_ =? _).
  - destruct (_ <=? _); [|cbn; fields].
    rewrite fmap_app. intros f Hf. apply elem_of_app in Hf as [Hf|Hf].
    + revert f Hf. change ([IP_PROTO; IPV4_SRC; IPV4_DST] ⊆ l3_fields). fields.
    + destruct (_ <? _); [|inversion Hf].
      apply l4_bindings_fields in Hf. revert f Hf.
      change (l4_fields ⊆ l3_fields). fields.
  - destruct (_ =? _); [|cbn; fields].
    destruct (_ && _); cbn; fields.
Qed.

Lemma l2_bindings_fields h d len : (l2_bindings h d len).*1 ⊆ l2_fields ++ l3_fields.
Proof.
  unfold l2_bindings.
  destruct (_ <=? _); [|cbn; fields].
  destruct (tagged h d); rewrite fmap_app; intros f Hf;
    apply elem_of_app in Hf as [Hf|Hf];
    try (apply l3_bindings_fields in Hf; apply elem_of_app; right; exact Hf);
    apply elem_of_app; left; revert f Hf.
  - change (l2_fields ⊆ l2_fields). fields.
  - change (l2_fields ⊆ l2_fields). fields.
Qed.

Lemma l2_bindings_ext h h' d len :
  (forall a, h' pi_buffer a = h pi_buffer a) ->
  l2_bindings h' d len = l2_bindings h d len.
Proof.
  intros H. unfold l2_bindings, tagged, l3_bindings, l4_bindings, ihl4, arp_valid.
  rewrite !(be16_heap_eq h h') by exact H. rewrite !H. reflexivity.
Qed.

Lemma l2_bindings_split h d len :
  ethernet_hdr.sizeof <= len ->
  l2_bindings h d len
  = (if tagged h d then dot1q_bindings d else ethernet_bindings d)
    ++ l3_bindings h (l3_type h d) (l3_offset h d) (len - 14).
Proof.
  intros Hlen. unfold l2_bindings, l3_type, l3_offset.
  apply N.leb_le in Hlen. rewrite Hlen. destruct (tagged h d); reflexivity.
Qed.

(** The outcome of the constructor on any packet-in. *)
Lemma ctor_outcome h pi :
  exists p,
    PacketParser_ctor h pi = Done tt p /\
    heap p = heap (started h pi) /\
    data p = pi_data pi /\ data_len p = pi_data_len pi /\
    match pi_data pi with
    | Some d =>
        bindings p = assign (bindings (started h pi)) (l2_bindings h d (pi_data_len pi)) /\
        vlan_tagged p = (if ethernet_hdr.sizeof <=? pi_data_len pi
                         then Some (tagged h d) else None) /\
        quiet d (d + pi_data_len pi + (if tagged h d then 4 else 0)) (started h pi) p
    | None => p = started h pi
    end.
Proof.
  rewrite ctor_started. destruct (pi_data pi) as [d|] eqn:Hd.
  - assert (Hun := started_unbound h pi).
    assert (Hr : reads_within d (d + pi_data_len pi) (started h pi)) by constructor.
    pose proof (returns_conj _ _ _ _
                  (parse_l2_lays d (pi_data_len pi) (started h pi) Hun)
                  (parse_l2_quiet d (pi_data_len pi) (started h pi) Hun Hr)) as Hrun.
    apply returns_done in Hrun as ([] & p & Hp & ([Hb Hh] & Hflag) & Hq).
    destruct (keeps_parse_l2 d (pi_data_len pi) (started h pi)) as [Hk1 Hk2].
    rewrite Hp in Hk1, Hk2. cbn [final] in Hk1, Hk2.
    exists p. split; [exact Hp|]. split; [exact Hh|].
    split; [rewrite Hk1; exact Hd|]. split; [exact Hk2|].
    rewrite (l2_bindings_ext h (heap (started h pi))) in Hb
      by (apply started_heap_packet).
    unfold tagged in *. rewrite be16_started in Hflag, Hq.
    split; [exact Hb|]. split; [exact Hflag | exact Hq].
  - exists (started h pi). repeat split; assumption.
Qed.

Lemma ctor_slot h pi d p f :
  pi_data pi = Some d ->
  PacketParser_ctor h pi = Done tt p ->
  bindings p !! field_id f
  = Some (match last_binding f (l2_bindings h d (pi_data_len pi)) with
          | Some q => q
          | None => if decide (f = IN_PORT) then in_port_ptr else nullptr
          end).
Proof.
  intros Hd Hp. destruct (ctor_outcome h pi) as (p' & Hp' & _ & _ & _ & Hrest).
  rewrite Hp in Hp'. injection Hp' as <-. rewrite Hd in Hrest.
  destruct Hrest as (Hb & _ & _). rewrite Hb.
  rewrite assign_lookup
    by (rewrite started_bindings, length_insert, length_replicate; apply field_id_lt).
  destruct (last_binding f _); [reflexivity|].
  destruct (decide (f = IN_PORT)) as [->|Hne].
  - apply started_in_port.
  - apply started_other; [|apply field_id_lt].
    intros Heq. apply Hne, field_id_inj, Heq.
Qed.

(** X1. Whatever the packet-in, the constructor returns normally: no
    content of the buffer makes an assertion of [bind] fail.  The table
    keeps its size, the ingress-port slot holds the address of the
    [in_port] member, the bytes of the packet block are those it was
    given, and [total_bytes] is the length of the packet-in. *)
Theorem constructor_always_returns h pi :
  exists p,
    PacketParser_ctor h pi = Done tt p /\
    length (bindings p) = bindings_size /\
    bindings p !! field_id IN_PORT = Some in_port_ptr /\
    (forall a, heap p pi_buffer a = h pi_buffer a) /\
    total_bytes p = pi_data_len pi /\
    data p = pi_data pi.
Proof.
  destruct (ctor_outcome h pi) as (p & Hp & Hh & Hdata & Hlen & Hrest).
  exists p. split; [exact Hp|].
  assert (Hsize : length (bindings (started h pi)) = bindings_size)
    by (rewrite started_bindings, length_insert; apply length_replicate).
  assert (Hb : length (bindings p) = bindings_size /\
               bindings p !! field_id IN_PORT = Some in_port_ptr).
  { destruct (pi_data pi) as [d|].
    - destruct Hrest as (Hb & _ & _). rewrite Hb, assign_length. split; [exact Hsize|].
      rewrite assign_other; [apply started_in_port|].
      intros b Hb' Heq. apply field_id_inj in Heq.
      assert (Hin : b.1 ∈ l2_fields ++ l3_fields).
      { apply (l2_bindings_fields h d (pi_data_len pi)).
        apply list_elem_of_fmap. exists b. split; [reflexivity | exact Hb']. }
      rewrite Heq in Hin. revert Hin. fields.
    - subst p. split; [exact Hsize | apply started_in_port]. }
  destruct Hb as [Hb1 Hb2]. repeat split; try assumption.
  intros a. rewrite Hh. apply started_heap_packet.
Qed.

(** X2. The reads of the constructor never leave the neighbourhood of the
    buffer: no offset before the buffer is read, none from 6 bytes past
    its end on, and none from 2 bytes past its end on when the frame
    carries no 802.1Q tag. *)
Theorem constructor_reads_stay_near_the_buffer h pi d :
  pi_data pi = Some d ->
  exists p,
    PacketParser_ctor h pi = Done tt p /\
    Forall (fun o => d <= o < d + pi_data_len pi + 6) (trace p) /\
    (be16 h (d + ethernet_hdr.type) <> 0x8100 ->
     Forall (fun o => d <= o < d + pi_data_len pi + 2) (trace p)).
Proof.
  intros Hd. destruct (ctor_outcome h pi) as (p & Hp & _ & _ & _ & Hrest).
  rewrite Hd in Hrest. destruct Hrest as (_ & _ & [Hq _]).
  exists p. split; [exact Hp|]. unfold reads_within in Hq. split.
  - eapply Forall_impl; [exact Hq|]. simpl. intros o Ho.
    destruct (tagged h d); lia.
  - intros Hty. apply N.eqb_neq in Hty. unfold tagged in Hq. rewrite Hty in Hq.
    eapply Forall_impl; [exact Hq|]. simpl. intros o Ho. lia.
Qed.

(** X3. When the DHCP layer did not run (the slot of [DHCP_OP] is null
    after construction), every byte the constructor read lies inside the
    buffer if the frame is untagged, and less than 4 bytes past its end if
    it is tagged. *)
Theorem constructor_reads_without_dhcp h pi d :
  pi_data pi = Some d ->
  exists p,
    PacketParser_ctor h pi = Done tt p /\
    (unbound_slot (bindings p) (field_id DHCP_OP) ->
     (be16 h (d + ethernet_hdr.type) <> 0x8100 ->
      Forall (fun o => d <= o < d + pi_data_len pi) (trace p)) /\
     Forall (fun o => d <= o < d + pi_data_len pi + 4) (trace p)).
Proof.
  intros Hd. destruct (ctor_outcome h pi) as (p & Hp & _ & _ & _ & Hrest).
  rewrite Hd in Hrest. destruct Hrest as (_ & _ & [_ Hq]).
  exists p. split; [exact Hp|]. intros Hun.
  destruct (Hq Hun) as [Hr _]. unfold reads_within in Hr. split.
  - intros Hty. apply N.eqb_neq in Hty. unfold tagged in Hr. rewrite Hty in Hr.
    rewrite N.add_0_r in Hr. exact Hr.
  - eapply Forall_impl; [exact Hr|]. simpl. intros o Ho.
    destruct (tagged h d); lia.
Qed.

(** X4. The option table is filled by the DHCP layer only: when the slot
    of [DHCP_OP] is null after construction, or the data pointer was
    null, [get_dhcp_option] returns the empty entry for every code. *)
Theorem no_dhcp_layer_no_options h pi :
  exists p,
    PacketParser_ctor h pi = Done tt p /\
    (pi_data pi = None \/ unbound_slot (bindings p) (field_id DHCP_OP) ->
     forall code, get_dhcp_option code p = dhcp_opt_empty).
Proof.
  destruct (ctor_outcome h pi) as (p & Hp & _ & _ & _ & Hrest).
  exists p. split; [exact Hp|]. intros Hcase code.
  assert (Ho : dhcp_options p = ∅).
  { destruct (pi_data pi) as [d|].
    - destruct Hcase as [Hnone|Hun]; [discriminate Hnone|].
      destruct Hrest as (_ & _ & [_ Hq]). destruct (Hq Hun) as [_ Ho]. exact Ho.
    - subst p. reflexivity. }
  unfold get_dhcp_option. rewrite Ho, lookup_empty. reflexivity.
Qed.

Lemma ctor_slot_l2 h pi d p f :
  pi_data pi = Some d -> ethernet_hdr.sizeof <= pi_data_len pi ->
  PacketParser_ctor h pi = Done tt p ->
  f ∈ l2_fields ->
  bindings p !! field_id f
  = Some (match last_binding f (if tagged h d then dot1q_bindings d
                                else ethernet_bindings d) with
          | Some q => q
          | None => nullptr
          end).
Proof.
  intros Hd Hlen Hp Hf. rewrite (ctor_slot h pi d p f Hd Hp).
  rewrite l2_bindings_split, last_binding_app by exact Hlen.
  rewrite (last_binding_none f (l3_bindings _ _ _ _)).
  - destruct (last_binding f _); [reflexivity|].
    destruct (decide (f = IN_PORT)) as [->|]; [|reflexivity].
    exfalso. revert Hf. fields.
  - intros Hin. apply l3_bindings_fields in Hin.
    assert (Hdis : Forall (fun g => g ∉ l3_fields) l2_fields) by fields.
    rewrite Forall_forall in Hdis. exact (Hdis f Hf Hin).
Qed.

Lemma ctor_slot_l3 h pi d p f :
  pi_data pi = Some d -> ethernet_hdr.sizeof <= pi_data_len pi ->
  PacketParser_ctor h pi = Done tt p ->
  f ∈ l3_fields ->
  bindings p !! field_id f
  = Some (match last_binding f (l3_bindings h (l3_type h d) (l3_offset h d)
                                            (pi_data_len pi - 14)) with
          | Some q => q
          | None => nullptr
          end).
Proof.
  intros Hd Hlen Hp Hf. rewrite (ctor_slot h pi d p f Hd Hp).
  rewrite l2_bindings_split, last_binding_app by exact Hlen.
  destruct (last_binding f (l3_bindings _ _ _ _)); [reflexivity|].
  rewrite last_binding_none.
  - destruct (decide (f = IN_PORT)) as [->|]; [|reflexivity].
    exfalso. revert Hf. fields.
  - intros Hin.
    assert (Hin' : f ∈ l2_fields) by (destruct (tagged h d); exact Hin).
    assert (Hdis : Forall (fun g => g ∉ l2_fields) l3_fields) by fields.
    rewrite Forall_forall in Hdis. exact (Hdis f Hf Hin').
Qed.

(** X5. On every frame of at least 14 bytes the constructor sets the
    VLAN flag to whether the ethertype at offset 12 is 0x8100, binds the
    destination and source addresses to offsets 0 and 6, and binds the
    ethertype field to the two bytes just before the network-layer
    header, so that the bytes there are the type the network layer was
    selected by. *)
Theorem link_layer_locations h pi d :
  pi_data pi = Some d ->
  ethernet_hdr.sizeof <= pi_data_len pi ->
  exists p,
    PacketParser_ctor h pi = Done tt p /\
    vlanTagged p = Some (be16 h (d + ethernet_hdr.type) =? 0x8100) /\
    bindings p !! field_id ETH_DST = Some (packet d) /\
    bindings p !! field_id ETH_SRC = Some (packet (d + 6)) /\
    bindings p !! field_id ETH_TYPE = Some (packet (l3_offset h d - 2)) /\
    be16 (heap p) (l3_offset h d - 2) = l3_type h d.
Proof.
  intros Hd Hlen.
  destruct (ctor_outcome h pi) as (p & Hp & Hh & _ & _ & Hrest).
  rewrite Hd in Hrest. destruct Hrest as (_ & Hflag & _).
  exists p. split; [exact Hp|]. split.
  { unfold vlanTagged. rewrite Hflag. apply N.leb_le in Hlen. rewrite Hlen. reflexivity. }
  rewrite !(ctor_slot_l2 h pi d p _ Hd Hlen Hp) by fields.
  assert (Hbe : forall off, be16 (heap p) off = be16 h off).
  { intros off. apply be16_heap_eq. intros a. rewrite Hh. apply started_heap_packet. }
  rewrite Hbe. unfold l3_offset, l3_type, dot1q_hdr.type, ethernet_hdr.type.
  destruct (tagged h d).
  - replace (d + 18 - 2) with (d + 16) by lia.
    unfold dot1q_bindings, dot1q_hdr.dst, dot1q_hdr.src, dot1q_hdr.type.
    rewrite N.add_0_r. simpl last_binding. repeat split; reflexivity.
  - replace (d + 14 - 2) with (d + 12) by lia.
    unfold ethernet_bindings, ethernet_hdr.dst, ethernet_hdr.src, ethernet_hdr.type.
    rewrite N.add_0_r. simpl last_binding. repeat split; reflexivity.
Qed.

Lemma l3_bindings_ipv4 h d len :
  ipv4_hdr.sizeof <= len ->
  l3_bindings h 0x0800 d len
  = [ (IP_PROTO, packet (d + ipv4_hdr.protocol));
      (IPV4_SRC, packet (d + ipv4_hdr.src));
      (IPV4_DST, packet (d + ipv4_hdr.dst)) ]
    ++ (if ihl4 h d <? len
        then l4_bindings h (Byte.to_N (h pi_buffer (d + ipv4_hdr.protocol)))
                         (d + ihl4 h d) (len - ihl4 h d)
        else []).
Proof.
  intros Hlen. unfold l3_bindings. change (0x0800 =? 0x0800) with true. cbv iota.
  apply N.leb_le in Hlen. rewrite Hlen. reflexivity.
Qed.

Lemma last_binding_l4_none h f (c : bool) protocol d len :
  f ∉ l4_fields ->
  last_binding f (if c then l4_bindings h protocol d len else []) = None.
Proof.
  intros Hf. destruct c; [|reflexivity].
  apply last_binding_none. intros Hin. apply Hf, (l4_bindings_fields _ _ _ _ _ Hin).
Qed.

Lemma ctor_slot_l4 h pi d p f :
  pi_data pi = Some d -> ethernet_hdr.sizeof <= pi_data_len pi ->
  PacketParser_ctor h pi = Done tt p ->
  l3_type h d = 0x0800 ->
  ipv4_hdr.sizeof <= pi_data_len pi - 14 ->
  f ∈ l4_fields ->
  bindings p !! field_id f
  = Some (match last_binding f
                  (if ihl4 h (l3_offset h d) <? pi_data_len pi - 14
                   then l4_bindings h
                          (Byte.to_N (h pi_buffer (l3_offset h d + ipv4_hdr.protocol)))
                          (l4_offset h d) (l4_len h d (pi_data_len pi))
                   else []) with
          | Some q => q
          | None => nullptr
          end).
Proof.
  intros Hd Hlen Hp Hty Hip Hf.
  rewrite (ctor_slot_l3 h pi d p f Hd Hlen Hp)
    by (revert f Hf; change (l4_fields ⊆ l3_fields); fields).
  rewrite Hty, l3_bindings_ipv4, last_binding_app by exact Hip.
  f_equal.
  match goal with
  | |- match match ?x with _ => _ end with _ => _ end = match ?y with _ => _ end =>
      change y with x; destruct x; [reflexivity|]
  end.
  rewrite last_binding_none; [reflexivity|].
  intros Hin.
  assert (Hdis : Forall (fun g => g ∉ [IP_PROTO; IPV4_SRC; IPV4_DST]) l4_fields) by fields.
  rewrite Forall_forall in Hdis. exact (Hdis f Hf Hin).
Qed.

(** X6. A frame whose network-layer type is 0x0800: when at least 20
    bytes are counted after the link-layer header the protocol, source
    and destination fields are bound to offsets 9, 12 and 16 of the IPv4
    header, whatever its version, header length or total length say;
    when fewer are counted no network-layer or deeper field is bound.
    No ARP field is bound either way. *)
Theorem ipv4_locations h pi d :
  pi_data pi = Some d ->
  ethernet_hdr.sizeof <= pi_data_len pi ->
  l3_type h d = 0x0800 ->
  exists p,
    PacketParser_ctor h pi = Done tt p /\
    (ipv4_hdr.sizeof <= pi_data_len pi - 14 ->
     bindings p !! field_id IP_PROTO = Some (packet (l3_offset h d + 9)) /\
     bindings p !! field_id IPV4_SRC = Some (packet (l3_offset h d + 12)) /\
     bindings p !! field_id IPV4_DST = Some (packet (l3_offset h d + 16))) /\
    (pi_data_len pi - 14 < ipv4_hdr.sizeof ->
     forall f, f ∈ l3_fields -> unbound_slot (bindings p) (field_id f)) /\
    (forall f, f ∈ arp_fields -> unbound_slot (bindings p) (field_id f)).
Proof.
  intros Hd Hlen Hty.
  destruct (ctor_outcome h pi) as (p & Hp & _).
  exists p. split; [exact Hp|]. split; [|split].
  - intros Hip. rewrite !(ctor_slot_l3 h pi d p _ Hd Hlen Hp) by fields.
    rewrite Hty, l3_bindings_ipv4, !last_binding_app by exact Hip.
    rewrite !last_binding_l4_none by fields.
    simpl last_binding. repeat split; reflexivity.
  - intros Hshort f Hf. unfold unbound_slot.
    rewrite (ctor_slot_l3 h pi d p f Hd Hlen Hp Hf), Hty.
    unfold l3_bindings. change (0x0800 =? 0x0800) with true. cbv iota.
    apply N.leb_gt in Hshort. rewrite Hshort. reflexivity.
  - intros f Hf. unfold unbound_slot.
    rewrite (ctor_slot_l3 h pi d p f Hd Hlen Hp)
      by (revert f Hf; change (arp_fields ⊆ l3_fields); fields).
    rewrite Hty. rewrite last_binding_none; [reflexivity|].
    intros Hin. unfold l3_bindings in Hin.
    change (0x0800 =? 0x0800) with true in Hin. cbv iota in Hin.
    destruct (ipv4_hdr.sizeof <=? pi_data_len pi - 14); [|inversion Hin].
    rewrite fmap_app in Hin. apply elem_of_app in Hin as [Hin|Hin].
    + assert (Hdis : Forall (fun g => g ∉ [IP_PROTO; IPV4_SRC; IPV4_DST]) arp_fields)
        by fields.
      rewrite Forall_forall in Hdis. exact (Hdis f Hf Hin).
    + destruct (_ <? _); [|inversion Hin].
      apply l4_bindings_fields in Hin.
      assert (Hdis : Forall (fun g => g ∉ l4_fields) arp_fields) by fields.
      rewrite Forall_forall in Hdis. exact (Hdis f Hf Hin).
Qed.

(** X7. A frame whose network-layer type is neither 0x0800 nor 0x0806
    (IPv6 among them): the constructor returns normally and no
    network-layer or deeper field is bound. *)
Theorem unhandled_ethertype_binds_nothing h pi d :
  pi_data pi = Some d ->
  ethernet_hdr.sizeof <= pi_data_len pi ->
  l3_type h d <> 0x0800 -> l3_type h d <> 0x0806 ->
  exists p,
    PacketParser_ctor h pi = Done tt p /\
    forall f, f ∈ l3_fields -> unbound_slot (bindings p) (field_id f).
Proof.
  intros Hd Hlen H1 H2.
  destruct (ctor_outcome h pi) as (p & Hp & _).
  exists p. split; [exact Hp|]. intros f Hf. unfold unbound_slot.
  rewrite (ctor_slot_l3 h pi d p f Hd Hlen Hp Hf).
  unfold l3_bindings. apply N.eqb_neq in H1, H2. rewrite H1, H2. reflexivity.
Qed.

(** X8. A frame whose network-layer type is 0x0806 with at least 28
    bytes counted after the link-layer header and an ARP header for
    Ethernet and IPv4 (hardware type 1, protocol type 0x0800, lengths 6
    and 4): the operation and the four addresses are bound to offsets 6,
    8, 18, 14 and 24 of the ARP header, and no IPv4 or transport field is
    bound.  With fewer than 28 bytes no network-layer field is bound. *)
Theorem arp_locations h pi d :
  pi_data pi = Some d ->
  ethernet_hdr.sizeof <= pi_data_len pi ->
  l3_type h d = 0x0806 ->
  exists p,
    PacketParser_ctor h pi = Done tt p /\
    (arp_hdr.sizeof <= pi_data_len pi - 14 ->
     be16 h (l3_offset h d) = 1 ->
     be16 h (l3_offset h d + 2) = 0x0800 ->
     Byte.to_N (h pi_buffer (l3_offset h d + 4)) = 6 ->
     Byte.to_N (h pi_buffer (l3_offset h d + 5)) = 4 ->
     bindings p !! field_id ARP_OP = Some (packet (l3_offset h d + 6)) /\
     bindings p !! field_id ARP_SHA = Some (packet (l3_offset h d + 8)) /\
     bindings p !! field_id ARP_SPA = Some (packet (l3_offset h d + 14)) /\
     bindings p !! field_id ARP_THA = Some (packet (l3_offset h d + 18)) /\
     bindings p !! field_id ARP_TPA = Some (packet (l3_offset h d + 24))) /\
    (pi_data_len pi - 14 < arp_hdr.sizeof ->
     forall f, f ∈ l3_fields -> unbound_slot (bindings p) (field_id f)) /\
    (forall f, f ∈ [IP_PROTO; IPV4_SRC; IPV4_DST] ++ l4_fields ->
               unbound_slot (bindings p) (field_id f)).
Proof.
  intros Hd Hlen Hty.
  destruct (ctor_outcome h pi) as (p & Hp & _).
  exists p. split; [exact Hp|].
  assert (Hl3 : l3_bindings h 0x0806 (l3_offset h d) (pi_data_len pi - 14)
                = if (arp_hdr.sizeof <=? pi_data_len pi - 14) && arp_valid h (l3_offset h d)
                  then [ (ARP_OP, packet (l3_offset h d + arp_hdr.oper));
                         (ARP_SHA, packet (l3_offset h d + arp_hdr.sha));
                         (ARP_THA, packet (l3_offset h d + arp_hdr.tha));
                         (ARP_SPA, packet (l3_offset h d + arp_hdr.spa));
                         (ARP_TPA, packet (l3_offset h d + arp_hdr.tpa)) ]
                  else []) by reflexivity.
  split; [|split].
  - intros Harp H1 H2 H3 H4.
    rewrite !(ctor_slot_l3 h pi d p _ Hd Hlen Hp) by fields.
    rewrite Hty, Hl3. apply N.leb_le in Harp. rewrite Harp.
    unfold arp_valid, arp_hdr.htype, arp_hdr.ptype, arp_hdr.hlen, arp_hdr.plen.
    rewrite N.add_0_r, H1, H2, H3, H4. simpl last_binding.
    repeat split; reflexivity.
  - intros Hshort f Hf. unfold unbound_slot.
    rewrite (ctor_slot_l3 h pi d p f Hd Hlen Hp Hf), Hty, Hl3.
    apply N.leb_gt in Hshort. rewrite Hshort. reflexivity.
  - intros f Hf. unfold unbound_slot.
    rewrite (ctor_slot_l3 h pi d p f Hd Hlen Hp)
      by (revert f Hf; change ([IP_PROTO; IPV4_SRC; IPV4_DST] ++ l4_fields ⊆ l3_fields);
          fields).
    rewrite Hty, Hl3. rewrite last_binding_none; [reflexivity|].
    intros Hin. destruct (_ && _); [|inversion Hin].
    assert (Hdis : Forall (fun g => g ∉ arp_fields)
                          ([IP_PROTO; IPV4_SRC; IPV4_DST] ++ l4_fields)) by fields.
    rewrite Forall_forall in Hdis. apply (Hdis f Hf).
    revert Hin. cbn. intros Hin.
    repeat (apply elem_of_cons in Hin as [->|Hin]); try fields. inversion Hin.
Qed.

Ltac l4_slots Hd Hlen Hp Hty Hip :=
  rewrite !(ctor_slot_l4 _ _ _ _ _ Hd Hlen Hp Hty Hip) by fields.

(** X9. An IPv4 frame carrying protocol 6: the TCP ports are bound
    exactly when at least 20 bytes are counted after the IPv4 header
    length field's [ihl * 4] bytes, and then at offsets 0 and 2 from
    there; the header length is not compared with 20, so a header length
    below 5 words places the ports inside the IPv4 header.  No UDP or
    DHCP field is bound. *)
Theorem tcp_locations h pi d :
  pi_data pi = Some d ->
  ethernet_hdr.sizeof <= pi_data_len pi ->
  l3_type h d = 0x0800 ->
  ipv4_hdr.sizeof <= pi_data_len pi - 14 ->
  Byte.to_N (h pi_buffer (l3_offset h d + 9)) = 0x06 ->
  exists p,
    PacketParser_ctor h pi = Done tt p /\
    (ihl4 h (l3_offset h d) + tcp_hdr.sizeof <= pi_data_len pi - 14 ->
     bindings p !! field_id TCP_SRC = Some (packet (l4_offset h d)) /\
     bindings p !! field_id TCP_DST = Some (packet (l4_offset h d + 2))) /\
    (pi_data_len pi - 14 < ihl4 h (l3_offset h d) + tcp_hdr.sizeof ->
     unbound_slot (bindings p) (field_id TCP_SRC) /\
     unbound_slot (bindings p) (field_id TCP_DST)) /\
    (forall f, f ∈ [UDP_SRC; UDP_DST] ++ dhcp_fields ->
               unbound_slot (bindings p) (field_id f)).
Proof.
  intros Hd Hlen Hty Hip Hproto.
  destruct (ctor_outcome h pi) as (p & Hp & _).
  exists p. split; [exact Hp|].
  unfold unbound_slot, tcp_hdr.sizeof, l4_bindings, ipv4_hdr.protocol.
  split; [|split].
  - intros Htcp. l4_slots Hd Hlen Hp Hty Hip.
    unfold l4_bindings, ipv4_hdr.protocol. rewrite Hproto.
    change (6 =? 6) with true. cbv iota.
    assert (H1 : (ihl4 h (l3_offset h d) <? pi_data_len pi - 14) = true)
      by (apply N.ltb_lt; lia).
    assert (H2 : (tcp_hdr.sizeof <=? l4_len h d (pi_data_len pi)) = true)
      by (apply N.leb_le; unfold l4_len, tcp_hdr.sizeof; lia).
    rewrite H1, H2. unfold tcp_hdr.src, tcp_hdr.dst. rewrite N.add_0_r.
    simpl last_binding. split; reflexivity.
  - intros Hshort. l4_slots Hd Hlen Hp Hty Hip.
    unfold l4_bindings, ipv4_hdr.protocol. rewrite Hproto.
    change (6 =? 6) with true. cbv iota.
    destruct (_ <? _) eqn:H1; [|split; reflexivity].
    assert (H2 : (tcp_hdr.sizeof <=? l4_len h d (pi_data_len pi)) = false)
      by (apply N.ltb_lt in H1; apply N.leb_gt;
          unfold l4_len, tcp_hdr.sizeof; lia).
    rewrite H2. split; reflexivity.
  - intros f Hf.
    rewrite (ctor_slot_l4 _ _ _ _ f Hd Hlen Hp Hty Hip)
      by (revert f Hf; change ([UDP_SRC; UDP_DST] ++ dhcp_fields ⊆ l4_fields); fields).
    unfold l4_bindings, ipv4_hdr.protocol. rewrite Hproto.
    change (6 =? 6) with true. cbv iota.
    rewrite last_binding_none; [reflexivity|].
    intros Hin. destruct (_ <? _); [|inversion Hin].
    destruct (_ <=? _); [|inversion Hin].
    assert (Hdis : Forall (fun g => g ∉ [TCP_SRC; TCP_DST])
                          ([UDP_SRC; UDP_DST] ++ dhcp_fields)) by fields.
    rewrite Forall_forall in Hdis. exact (Hdis f Hf Hin).
Qed.

(** X10. An IPv4 frame carrying protocol 17: the UDP ports are bound
    exactly when at least 8 bytes are counted after the [ihl * 4] bytes
    of the IPv4 header, and then at offsets 0 and 2 from there.  No TCP
    field is bound. *)
Theorem udp_locations h pi d :
  pi_data pi = Some d ->
  ethernet_hdr.sizeof <= pi_data_len pi ->
  l3_type h d = 0x0800 ->
  ipv4_hdr.sizeof <= pi_data_len pi - 14 ->
  Byte.to_N (h pi_buffer (l3_offset h d + 9)) = 0x11 ->
  exists p,
    PacketParser_ctor h pi = Done tt p /\
    (ihl4 h (l3_offset h d) + udp_hdr.sizeof <= pi_data_len pi - 14 ->
     bindings p !! field_id UDP_SRC = Some (packet (l4_offset h d)) /\
     bindings p !! field_id UDP_DST = Some (packet (l4_offset h d + 2))) /\
    (pi_data_len pi - 14 < ihl4 h (l3_offset h d) + udp_hdr.sizeof ->
     forall f, f ∈ l4_fields -> unbound_slot (bindings p) (field_id f)) /\
    unbound_slot (bindings p) (field_id TCP_SRC) /\
    unbound_slot (bindings p) (field_id TCP_DST).
Proof.
  intros Hd Hlen Hty Hip Hproto.
  destruct (ctor_outcome h pi) as (p & Hp & _).
  exists p. split; [exact Hp|].
  unfold unbound_slot, udp_hdr.sizeof.
  split; [|split].
  - intros Hudp. l4_slots Hd Hlen Hp Hty Hip.
    unfold l4_bindings, ipv4_hdr.protocol. rewrite Hproto.
    change (17 =? 6) with false. change (17 =? 17) with true. cbv iota.
    assert (H1 : (ihl4 h (l3_offset h d) <? pi_data_len pi - 14) = true)
      by (apply N.ltb_lt; lia).
    assert (H2 : (udp_hdr.sizeof <=? l4_len h d (pi_data_len pi)) = true)
      by (apply N.leb_le; unfold l4_len, udp_hdr.sizeof; lia).
    rewrite H1, H2, !last_binding_app.
    assert (Hno : forall f, f ∈ [UDP_SRC; UDP_DST] ->
              last_binding f
                (if (udp_hdr.header_length <? l4_len h d (pi_data_len pi))
                    && (be16 h (l4_offset h d + udp_hdr.src) =? 68)
                    && (be16 h (l4_offset h d + udp_hdr.dst) =? 67)
                 then dhcp_bindings (l4_offset h d + udp_hdr.header_length)
                        (l4_len h d (pi_data_len pi) - udp_hdr.header_length)
                 else []) = None).
    { intros f Hf. apply last_binding_none. intros Hin.
      destruct (_ && _); [|inversion Hin].
      apply dhcp_bindings_fields in Hin.
      assert (Hdis : Forall (fun g => g ∉ dhcp_fields) [UDP_SRC; UDP_DST]) by fields.
      rewrite Forall_forall in Hdis. exact (Hdis f Hf Hin). }
    rewrite !Hno by fields.
    unfold udp_hdr.src, udp_hdr.dst. rewrite N.add_0_r.
    simpl last_binding. split; reflexivity.
  - intros Hshort f Hf.
    rewrite (ctor_slot_l4 _ _ _ _ f Hd Hlen Hp Hty Hip Hf).
    unfold l4_bindings, ipv4_hdr.protocol. rewrite Hproto.
    change (17 =? 6) with false. change (17 =? 17) with true. cbv iota.
    destruct (_ <? _) eqn:H1; [|reflexivity].
    assert (H2 : (udp_hdr.sizeof <=? l4_len h d (pi_data_len pi)) = false)
      by (apply N.ltb_lt in H1; apply N.leb_gt;
          unfold l4_len, udp_hdr.sizeof; lia).
    rewrite H2. reflexivity.
  - assert (Hno : forall f, f ∈ [TCP_SRC; TCP_DST] ->
                            bindings p !! field_id f = Some nullptr).
    { intros f Hf.
      rewrite (ctor_slot_l4 _ _ _ _ f Hd Hlen Hp Hty Hip)
        by (revert f Hf; change ([TCP_SRC; TCP_DST] ⊆ l4_fields); fields).
      unfold l4_bindings, ipv4_hdr.protocol. rewrite Hproto.
      change (17 =? 6) with false. change (17 =? 17) with true. cbv iota.
      rewrite last_binding_none; [reflexivity|].
      intros Hin. destruct (_ <? _); [|inversion Hin].
      destruct (_ <=? _); [|inversion Hin].
      rewrite fmap_app in Hin. apply elem_of_app in Hin as [Hin|Hin].
      - assert (Hdis : Forall (fun g => g ∉ [UDP_SRC; UDP_DST]) [TCP_SRC; TCP_DST])
          by fields.
        rewrite Forall_forall in Hdis. exact (Hdis f Hf Hin).
      - destruct (_ && _); [|inversion Hin].
        apply dhcp_bindings_fields in Hin.
        assert (Hdis : Forall (fun g => g ∉ dhcp_fields) [TCP_SRC; TCP_DST]) by fields.
        rewrite Forall_forall in Hdis. exact (Hdis f Hf Hin). }
    split; apply Hno; fields.
Qed.

(** X11. An IPv4 frame carrying protocol 17 with a whole UDP header: the
    DHCP layer is entered exactly when the source port is 68, the
    destination port is 67 and at least 42 bytes are counted from the
    UDP header on.  Then the five DHCP fields are bound to offsets 0, 4,
    12, 16 and 28 of the DHCP header, which starts 8 bytes after the UDP
    header; otherwise no DHCP field is bound and every option is
    empty. *)
Theorem dhcp_locations h pi d :
  pi_data pi = Some d ->
  ethernet_hdr.sizeof <= pi_data_len pi ->
  l3_type h d = 0x0800 ->
  ipv4_hdr.sizeof <= pi_data_len pi - 14 ->
  Byte.to_N (h pi_buffer (l3_offset h d + 9)) = 0x11 ->
  ihl4 h (l3_offset h d) + udp_hdr.sizeof <= pi_data_len pi - 14 ->
  exists p,
    PacketParser_ctor h pi = Done tt p /\
    (be16 h (l4_offset h d) = 68 -> be16 h (l4_offset h d + 2) = 67 ->
     42 <= l4_len h d (pi_data_len pi) ->
     bindings p !! field_id DHCP_OP = Some (packet (l4_offset h d + 8)) /\
     bindings p !! field_id DHCP_XID = Some (packet (l4_offset h d + 12)) /\
     bindings p !! field_id DHCP_CIADDR = Some (packet (l4_offset h d + 20)) /\
     bindings p !! field_id DHCP_YIADDR = Some (packet (l4_offset h d + 24)) /\
     bindings p !! field_id DHCP_CHADDR = Some (packet (l4_offset h d + 36))) /\
    (be16 h (l4_offset h d) <> 68 \/ be16 h (l4_offset h d + 2) <> 67 \/
     l4_len h d (pi_data_len pi) < 42 ->
     (forall f, f ∈ dhcp_fields -> unbound_slot (bindings p) (field_id f)) /\
     (forall code, get_dhcp_option code p = dhcp_opt_empty)).
Proof.
  intros Hd Hlen Hty Hip Hproto Hudp.
  destruct (ctor_outcome h pi) as (p & Hp & _ & _ & _ & Hrest).
  rewrite Hd in Hrest. destruct Hrest as (_ & _ & [_ Hq]).
  exists p. split; [exact Hp|].
  assert (H1 : (ihl4 h (l3_offset h d) <? pi_data_len pi - 14) = true)
    by (apply N.ltb_lt; unfold udp_hdr.sizeof in Hudp; lia).
  assert (H2 : (udp_hdr.sizeof <=? l4_len h d (pi_data_len pi)) = true)
    by (apply N.leb_le; unfold l4_len, udp_hdr.sizeof in *; lia).
  assert (Hslot : forall f, f ∈ dhcp_fields ->
            bindings p !! field_id f
            = Some (match last_binding f
                            (if (udp_hdr.header_length <? l4_len h d (pi_data_len pi))
                                && (be16 h (l4_offset h d + udp_hdr.src) =? 68)
                                && (be16 h (l4_offset h d + udp_hdr.dst) =? 67)
                             then dhcp_bindings (l4_offset h d + udp_hdr.header_length)
                                    (l4_len h d (pi_data_len pi) - udp_hdr.header_length)
                             else []) with
                    | Some q => q
                    | None => nullptr
                    end)).
  { intros f Hf.
    rewrite (ctor_slot_l4 _ _ _ _ f Hd Hlen Hp Hty Hip)
      by (revert f Hf; change (dhcp_fields ⊆ l4_fields); fields).
    unfold l4_bindings, ipv4_hdr.protocol. rewrite Hproto.
    change (17 =? 6) with false. change (17 =? 17) with true. cbv iota.
    rewrite H1, H2, last_binding_app. f_equal.
    match goal with
    | |- match match ?x with _ => _ end with _ => _ end = match ?y with _ => _ end =>
        change y with x; destruct x; [reflexivity|]
    end.
    rewrite last_binding_none; [reflexivity|].
    intros Hin.
    assert (Hdis : Forall (fun g => g ∉ [UDP_SRC; UDP_DST]) dhcp_fields) by fields.
    rewrite Forall_forall in Hdis. exact (Hdis f Hf Hin). }
  unfold udp_hdr.src, udp_hdr.dst, udp_hdr.header_length in Hslot.
  rewrite N.add_0_r in Hslot.
  split.
  - intros Hsrc Hdst Hrest. rewrite !Hslot by fields.
    rewrite Hsrc, Hdst. change (68 =? 68) with true. change (67 =? 67) with true.
    assert (H3 : (8 <? l4_len h d (pi_data_len pi)) = true) by (apply N.ltb_lt; lia).
    assert (H4 : (dhcp_hdr.sizeof <=? l4_len h d (pi_data_len pi) - 8) = true)
      by (apply N.leb_le; unfold dhcp_hdr.sizeof; lia).
    rewrite H3. unfold dhcp_bindings. rewrite H4.
    unfold dhcp_hdr.op, dhcp_hdr.xid, dhcp_hdr.ciaddr, dhcp_hdr.yiaddr, dhcp_hdr.chaddr.
    rewrite N.add_0_r, <- !N.add_assoc. simpl last_binding.
    repeat split; reflexivity.
  - intros Hcase.
    assert (Hun : forall f, f ∈ dhcp_fields -> unbound_slot (bindings p) (field_id f)).
    { intros f Hf. unfold unbound_slot. rewrite (Hslot f Hf).
      destruct (8 <? l4_len h d (pi_data_len pi)) eqn:H3; [|reflexivity].
      destruct (be16 h (l4_offset h d) =? 68) eqn:H5; [|reflexivity].
      destruct (be16 h (l4_offset h d + 2) =? 67) eqn:H6; [|reflexivity].
      apply N.eqb_eq in H5, H6. apply N.ltb_lt in H3.
      destruct Hcase as [Hc|[Hc|Hc]]; [contradiction | contradiction |].
      simpl andb. cbv iota. unfold dhcp_bindings.
      assert (H4 : (dhcp_hdr.sizeof <=? l4_len h d (pi_data_len pi) - 8) = false)
        by (apply N.leb_gt; unfold dhcp_hdr.sizeof; lia).
      rewrite H4. reflexivity. }
    split; [exact Hun|]. intros code.
    assert (Ho : dhcp_options p = ∅)
      by (destruct (Hq (Hun DHCP_OP ltac:(fields))) as [_ Ho]; exact Ho).
    unfold get_dhcp_option. rewrite Ho, lookup_empty. reflexivity.
Qed.

(** ** The layers nest *)

Lemma l2_bindings_layered h d len :
  layered (fun f => laid (l2_bindings h d len) f = true).
Proof.
  unfold l2_bindings, l3_bindings, l4_bindings, dhcp_bindings.
  repeat match goal with
         | |- context [if ?c then _ else _] => destruct c
         end;
    apply (bool_decide_unpack _); vm_compute; reflexivity.
Qed.

Lemma brings_ext (B B' : basic_match_fields -> Prop) F G :
  (forall f, f ∈ l2_fields ++ l3_fields -> B f <-> B' f) ->
  F ⊆ l2_fields ++ l3_fields -> G ⊆ l2_fields ++ l3_fields ->
  brings B F G -> brings B' F G.
Proof.
  intros Hext HF HG. unfold brings. rewrite !Forall_forall.
  intros H f Hf. specialize (H f Hf). rewrite Forall_forall in H |- *.
  intros g Hg Hb. apply (Hext g (HG g Hg)), (H g Hg), (Hext f (HF f Hf)), Hb.
Qed.

Lemma excludes_ext (B B' : basic_match_fields -> Prop) F G :
  (forall f, f ∈ l2_fields ++ l3_fields -> B f <-> B' f) ->
  F ⊆ l2_fields ++ l3_fields -> G ⊆ l2_fields ++ l3_fields ->
  excludes B F G -> excludes B' F G.
Proof.
  intros Hext HF HG. unfold excludes. rewrite !Forall_forall.
  intros H f Hf. specialize (H f Hf). rewrite Forall_forall in H |- *.
  intros g Hg Hb Hb'.
  apply (H g Hg); [apply (Hext f (HF f Hf)), Hb | apply (Hext g (HG g Hg)), Hb'].
Qed.

Lemma layered_ext (B B' : basic_match_fields -> Prop) :
  (forall f, f ∈ l2_fields ++ l3_fields -> B f <-> B' f) ->
  layered B -> layered B'.
Proof.
  intros Hext HB. unfold layered in *.
  repeat match type of HB with
         | _ /\ _ => let H := fresh "H" in destruct HB as [H HB]
         end.
  repeat split;
    first [ eapply brings_ext | eapply excludes_ext ];
    try eassumption; fields.
Qed.

Lemma bound_slot_laid t (l : binding_list) f :
  t !! field_id f
  = Some (match last_binding f l with Some q => q | None => nullptr end) ->
  bound_slot t (field_id f) <-> laid l f = true.
Proof.
  intros Hs. unfold bound_slot, laid. rewrite Hs.
  destruct (last_binding f l) as [[|b off]|]; split;
    try discriminate; try reflexivity.
  - intros (b & off & H). discriminate H.
  - intros _. exists b, off. reflexivity.
  - intros (b & off & H). discriminate H.
Qed.

(** X12. Whatever the packet-in, the fields bound after construction
    follow the protocol stack: a network-layer field or the VLAN id is
    bound only with the three Ethernet fields, a transport or DHCP field
    only with the three IPv4 fields, a DHCP field only with the UDP
    ports; the fields of one header are bound all or none; no ARP field
    is bound together with an IPv4 or transport field, and no TCP port
    together with a UDP port or a DHCP field. *)
Theorem bound_fields_follow_the_stack h pi :
  exists p,
    PacketParser_ctor h pi = Done tt p /\
    layered (fun f => bound_slot (bindings p) (field_id f)).
Proof.
  destruct (ctor_outcome h pi) as (p & Hp & _ & _ & _ & Hrest).
  exists p. split; [exact Hp|].
  assert (Hne : forall f, f ∈ l2_fields ++ l3_fields -> f <> IN_PORT).
  { intros f Hf ->. revert Hf. fields. }
  destruct (pi_data pi) as [d|] eqn:Hd.
  - apply (layered_ext (fun f => laid (l2_bindings h d (pi_data_len pi)) f = true));
      [|apply l2_bindings_layered].
    intros f Hf. symmetry. apply bound_slot_laid.
    rewrite (ctor_slot h pi d p f Hd Hp).
    destruct (last_binding f _); [reflexivity|].
    destruct (decide (f = IN_PORT)) as [He|_]; [|reflexivity].
    destruct (Hne f Hf He).
  - subst p.
    apply (layered_ext (fun f => laid [] f = true));
      [|apply (bool_decide_unpack _); vm_compute; reflexivity].
    intros f Hf. symmetry. apply bound_slot_laid. cbn [last_binding].
    apply started_other; [|apply field_id_lt].
    intros Heq. apply (Hne f Hf), field_id_inj, Heq.
Qed.

(** ** Invariants carried through the layers *)

Section Invariant.

Variable I : PacketParser -> Prop.
Hypothesis I_log_read : forall off p, I p -> I (log_read off p).
Hypothesis I_set_bindings : forall t p, I p -> I (set_bindings t p).
Hypothesis I_set_vlan_tagged : forall b p, I p -> I (set_vlan_tagged b p).
Hypothesis I_dhcp_scan :
  forall fuel options limit p,
    I p -> returns (dhcp_scan fuel options limit 0 false) p (fun _ p' => I p').

Lemma preserves_and_then {A B} (c : M A) (k : A -> M B) :
  preserves I c -> (forall a, preserves I (k a)) -> preserves I (and_then c k).
Proof.
  intros Hc Hk p Hp. unfold and_then. specialize (Hc p Hp).
  destruct (c p) as [a p1|e p1]; simpl in *; [apply Hk, Hc | exact Hc].
Qed.

Ltac preserves_tac :=
  repeat
    (lazymatch goal with
      | |- preserves _ (and_then _ _) => apply preserves_and_then; [|intros ?]
      | |- preserves _ (if ?b then _ else _) => destruct b
      | |- preserves _ (ret _) => intros ? ?; assumption
      | |- preserves _ (throw _) => intros ? ?; assumption
      | |- preserves _ (read8 _) => intros ? ?; apply I_log_read; assumption
      | |- preserves _ (update (set_vlan_tagged _)) =>
          intros ? ?; apply I_set_vlan_tagged; assumption
      | |- preserves _ (get _) => intros ? ?; assumption
      | |- preserves _ (ASSERT _ _) => unfold ASSERT
      | |- preserves _ (read16 _) => unfold read16
      | |- preserves _ (ipv4_header_length _) => unfold ipv4_header_length
      | |- preserves _ (andalso _ _) => unfold andalso
      | |- preserves _ (orelse _ _) => unfold orelse
      end).

Lemma preserves_at_ id : preserves I (at_ id).
Proof. intros p Hp. unfold at_. destruct (bindings p !! id); exact Hp. Qed.

Lemma preserves_at_put id q : preserves I (at_put id q).
Proof.
  intros p Hp. unfold at_put.
  destruct (bindings p !! id); [apply I_set_bindings|]; exact Hp.
Qed.

Lemma preserves_bind l : preserves I (bind l).
Proof.
  induction l as [|b l IH]; cbn [bind]; [preserves_tac|].
  apply preserves_and_then; [|intros _; exact IH].
  unfold bind_entry. cbv zeta.
  apply preserves_and_then; [apply preserves_at_|intros slot].
  apply preserves_and_then; [preserves_tac | intros _; apply preserves_at_put].
Qed.

Lemma preserves_parse_dhcp d len : preserves I (parse_dhcp d len).
Proof.
  unfold parse_dhcp. preserves_tac; [apply preserves_bind|].
  intros p Hp. pose proof (I_dhcp_scan (S (N.to_nat (len - 34)))
                             (d + dhcp_hdr.options) (len - 34) p Hp) as H.
  unfold returns in H. destruct (dhcp_scan _ _ _ _ _ p); [exact H | destruct H].
Qed.

Lemma preserves_parse_l4 protocol d len : preserves I (parse_l4 protocol d len).
Proof.
  unfold parse_l4.
  preserves_tac; first [apply preserves_bind | apply preserves_parse_dhcp].
Qed.

Lemma preserves_parse_l3 eth_type d len : preserves I (parse_l3 eth_type d len).
Proof.
  unfold parse_l3.
  preserves_tac; first [apply preserves_bind | apply preserves_parse_l4].
Qed.

Lemma preserves_parse_l2 d len : preserves I (parse_l2 d len).
Proof.
  unfold parse_l2.
  preserves_tac; first [apply preserves_bind | apply preserves_parse_l3].
Qed.

(** What holds when the constructor has bound the ingress port holds of
    the constructed object. *)
Lemma ctor_preserves h pi p :
  I (started h pi) -> PacketParser_ctor h pi = Done tt p -> I p.
Proof.
  intros H0 Hp. rewrite ctor_started in Hp. destruct (pi_data pi) as [d|].
  - pose proof (preserves_parse_l2 d (pi_data_len pi) (started h pi) H0) as H1.
    rewrite Hp in H1. exact H1.
  - injection Hp as <-. exact H0.
Qed.

End Invariant.

Lemma sound_options_log_read off p : sound_options p -> sound_options (log_read off p).
Proof.
  unfold sound_options. cbn [heap trace dhcp_options log_read].
  intros Hp. eapply map_Forall_impl; [exact Hp|]. intros key e (pos & Hin & H).
  exists pos. split; [right; exact Hin | exact H].
Qed.

Lemma dhcp_scan_sound fuel options limit i flag p :
  sound_options p ->
  returns (dhcp_scan fuel options limit i flag) p (fun _ p' => sound_options p').
Proof.
  revert i flag p. induction fuel as [|fuel IH]; intros i flag p Hp.
  - exact Hp.
  - cbn [dhcp_scan]. unfold dhcp_iteration. cbv zeta.
    repeat run_step; try apply IH;
      repeat apply sound_options_log_read; try assumption.
    unfold sound_options.
    cbn [heap trace dhcp_options log_read set_dhcp_options].
    apply map_Forall_insert_2.
    + exists (options + i). split; [|split; [reflexivity|split; [|reflexivity]]].
      * do 3 right. left.
      * apply N.eqb_neq. assumption.
    + eapply map_Forall_impl; [exact Hp|].
      intros key e (pos & Hin & H). exists pos. split; [|exact H].
      do 4 right. exact Hin.
Qed.

Lemma cookie_read_log_read off p : cookie_read p -> cookie_read (log_read off p).
Proof.
  intros (pos & H1 & H2 & H3). exists pos. cbn [trace heap log_read].
  repeat split; [right; exact H1 | right; exact H2 | exact H3].
Qed.

Lemma dhcp_scan_cookie_read fuel options limit i flag p :
  (flag = true -> cookie_read p) -> options_need_cookie p ->
  returns (dhcp_scan fuel options limit i flag) p (fun _ p' => options_need_cookie p').
Proof.
  revert i flag p. induction fuel as [|fuel IH]; intros i flag p Hflag Hp.
  - exact Hp.
  - cbn [dhcp_scan]. unfold dhcp_iteration. cbv zeta.
    destruct (i <=? limit); [|exact Hp].
    destruct flag.
    + specialize (Hflag eq_refl).
      repeat run_step; try apply IH; try intros _;
        first [ right; repeat apply cookie_read_log_read; exact Hflag
              | repeat apply cookie_read_log_read; exact Hflag ].
    + clear Hflag.
      assert (Hkeep : forall q, options_need_cookie q ->
                forall off, options_need_cookie (log_read off q)).
      { intros q [Hq|Hq] off; [left; exact Hq | right; apply cookie_read_log_read, Hq]. }
      repeat run_step; try apply IH; try discriminate;
        try (repeat apply Hkeep; exact Hp).
      all: try (intros _).
      all: try (right).
      all: exists (options + i); cbn [trace heap log_read]; split; [|split];
        [ do 3 right; left
        | left
        | repeat match goal with H : (_ =? _) = true |- _ => apply N.eqb_eq in H end;
          intros [|[|[|[|k]]]] x Hk; simpl in Hk; try discriminate Hk;
          injection Hk as <-; cbn [N.of_nat]; rewrite ?N.add_0_r;
          assumption ].
Qed.

(** X13. Whatever bytes follow the UDP header, every entry that
    [get_dhcp_option] returns after construction is the empty entry or
    describes an option that is in memory: it is returned for the code
    found at a position the constructor read, less than 6 bytes past the
    end of the buffer; that code is not 0xFF, the length is the byte
    after it and the value pointer is the byte after that.  The length is
    not compared with the end of the buffer. *)
Theorem options_describe_the_packet h pi d :
  pi_data pi = Some d ->
  exists p,
    PacketParser_ctor h pi = Done tt p /\
    forall code,
      get_dhcp_option code p = dhcp_opt_empty \/
      exists pos,
        d <= pos < d + pi_data_len pi + 6 /\
        Byte.to_N (h pi_buffer pos) = code /\ code <> 0xFF /\
        get_dhcp_option code p
        = mk_dhcp_opt code (Byte.to_N (h pi_buffer (pos + 1))) (packet (pos + 2)).
Proof.
  intros Hd. destruct (ctor_outcome h pi) as (p & Hp & Hh & _ & _ & Hrest).
  rewrite Hd in Hrest. destruct Hrest as (_ & _ & [Hq _]).
  exists p. split; [exact Hp|]. intros code.
  assert (Hs : sound_options p).
  { apply (ctor_preserves sound_options) with (h := h) (pi := pi);
      [ apply sound_options_log_read | intros t q H; exact H | intros b q H; exact H
      | intros fuel options limit q; apply dhcp_scan_sound
      | apply map_Forall_empty | exact Hp ]. }
  unfold get_dhcp_option. destruct (dhcp_options p !! code) as [e|] eqn:He.
  - right. destruct (Hs code e He) as (pos & Hin & Hc & Hne & ->).
    exists pos. unfold reads_within in Hq. rewrite Forall_forall in Hq.
    specialize (Hq pos Hin). rewrite Hh, !started_heap_packet in Hc |- *.
    repeat split; try assumption; try lia.
    destruct (tagged h d); lia.
  - left. reflexivity.
Qed.

(** X14. Options are taken only after the magic cookie: if
    [get_dhcp_option] returns a non-empty entry for some code after
    construction, the bytes 0x63 0x82 0x53 0x63 stand in memory at a
    position the constructor read, between the start of the buffer and 6
    bytes past its end.  A payload without the cookie yields no
    option. *)
Theorem options_need_the_cookie h pi d code :
  pi_data pi = Some d ->
  exists p,
    PacketParser_ctor h pi = Done tt p /\
    (get_dhcp_option code p <> dhcp_opt_empty ->
     exists pos,
       d <= pos /\ pos + 3 < d + pi_data_len pi + 6 /\
       holds h pos dhcp_cookie).
Proof.
  intros Hd. destruct (ctor_outcome h pi) as (p & Hp & Hh & _ & _ & Hrest).
  rewrite Hd in Hrest. destruct Hrest as (_ & _ & [Hq _]).
  exists p. split; [exact Hp|]. intros Hne.
  assert (Hs : options_need_cookie p).
  { apply (ctor_preserves options_need_cookie) with (h := h) (pi := pi);
      [ intros off q [H|H]; [left; exact H | right; apply cookie_read_log_read, H]
      | intros t q H; exact H | intros b q H; exact H
      | intros fuel options limit q H; apply dhcp_scan_cookie_read;
        [discriminate | exact H]
      | left; reflexivity | exact Hp ]. }
  destruct Hs as [Hempty|(pos & H1 & H2 & H3)].
  - exfalso. apply Hne. unfold get_dhcp_option. rewrite Hempty, lookup_empty.
    reflexivity.
  - exists pos. unfold reads_within in Hq. rewrite Forall_forall in Hq.
    pose proof (Hq pos H1) as Hlo. pose proof (Hq (pos + 3) H2) as Hhi.
    split; [lia|]. split; [destruct (tagged h d); lia|].
    intros k x Hk. rewrite <- (H3 k x Hk), Hh, started_heap_packet. reflexivity.
Qed.

(** ** Serialisation and the accessors *)

(** X15. Construction followed by [serialize_to] gives the frame back:
    the call returns the smaller of the frame length and the buffer
    size, that many bytes of the destination are the bytes of the frame
    as the packet-in delivered them, also when the destination overlaps
    the frame, no other byte of memory changes (a short buffer truncates
    the frame, it is never overrun), and the binding table, the members
    and the option table stay as the constructor left them. *)
Theorem serialize_returns_the_frame h pi d buffer_size b off :
  pi_data pi = Some d ->
  exists p p',
    PacketParser_ctor h pi = Done tt p /\
    serialize_to buffer_size (ptr b off) p
    = Done (N.min (pi_data_len pi) buffer_size) p' /\
    (forall k, k < N.min (pi_data_len pi) buffer_size ->
               heap p' b (off + k) = h pi_buffer (d + k)) /\
    (forall b' a,
        ~ (b' = b /\ off <= a < off + N.min (pi_data_len pi) buffer_size) ->
        heap p' b' a = heap p b' a) /\
    bindings p' = bindings p /\
    vlanTagged p' = vlanTagged p /\
    total_bytes p' = total_bytes p /\
    dhcp_options p' = dhcp_options p.
Proof.
  intros Hd. destruct (ctor_outcome h pi) as (p & Hp & Hh & Hdata & Hlen & _).
  exists p. eexists. split; [exact Hp|].
  unfold serialize_to. cbv zeta. rewrite Hlen. split; [reflexivity|].
  cbn [heap bindings vlanTagged vlan_tagged total_bytes data_len dhcp_options set_heap].
  unfold data_ptr. rewrite Hdata, Hd. unfold memmove, packet.
  repeat split.
  - intros k Hk.
    destruct (decide _) as [_|Hn]; [|exfalso; apply Hn; split; [reflexivity | lia]].
    replace (off + k - off) with k by lia.
    rewrite Hh. apply started_heap_packet.
  - intros b' a Hout. destruct (decide _) as [Hin|_]; [destruct (Hout Hin) | reflexivity].
Qed.

(** X16. The three accessors succeed and fail together.  The namespace
    is checked first: a foreign namespace is reported whatever the id.
    In the basic namespace an id outside the table, or one whose slot is
    null, gives the unsupported-field failure (never the range error of
    [bind]).  A failed [load] or [modify] leaves the object as it was,
    no byte written; otherwise [access] returns the pointer of the slot
    and [load] returns without changing the object. *)
Theorem accessors_succeed_and_fail_together t p :
  let e := if type_ns t =? OPENFLOW_BASIC
           then unsupported_field (type_id t)
           else unsupported_ns (type_ns t) in
  (type_ns t = OPENFLOW_BASIC /\ bound_slot (bindings p) (type_id t) ->
   exists q,
     bindings p !! type_id t = Some q /\ q <> nullptr /\
     access t p = Done q p /\
     (forall mask, mask_type mask = t -> exists v, load mask p = Done v p) /\
     (forall patch, field_type patch = t ->
                    exists p', modify patch p = Done tt p')) /\
  (~ (type_ns t = OPENFLOW_BASIC /\ bound_slot (bindings p) (type_id t)) ->
   access t p = Thrown e p /\
   (forall mask, mask_type mask = t -> load mask p = Thrown e p) /\
   (forall patch, field_type patch = t -> modify patch p = Thrown e p)).
Proof.
  intros e. split.
  - intros (Hns & b & off & Hb). exists (ptr b off).
    split; [exact Hb|]. split; [discriminate|].
    split; [apply access_bound; assumption|]. split.
    + intros mask <-. eexists. apply load_bound; eassumption.
    + intros patch <-. eexists. apply modify_bound; eassumption.
  - intros Hnot.
    assert (Ha : access t p = Thrown e p).
    { subst e. destruct (type_ns t =? OPENFLOW_BASIC) eqn:Hns.
      - apply N.eqb_eq in Hns. apply access_unbound; [exact Hns|].
        destruct (bindings p !! type_id t) as [[|b off]|] eqn:Hb; [left | | right];
          try reflexivity.
        exfalso. apply Hnot. split; [exact Hns|]. exists b, off. exact Hb.
      - apply N.eqb_neq in Hns. apply access_unsupported_ns, Hns. }
    split; [exact Ha|]. split.
    + intros mask <-. apply load_thrown, Ha.
    + intros patch <-. apply modify_thrown, Ha.
Qed.

End Parser.

(** * The model on concrete frames *)

Lemma of13_id_inj f g : of13_id f = of13_id g -> f = g.
Proof. destruct f, g; simpl; intros H; first [reflexivity | discriminate H]. Qed.

Lemma of13_id_lt f : (of13_id f < 45)%nat.
Proof. destruct f; simpl; lia. Qed.

(** C1 (the code at a failing input). A 14-byte buffer whose ethertype is
    0x8100: the constructor takes the tagged branch without any check for
    18 bytes, binds the four link-layer fields (the ethertype field to
    offset 16, past the end of the buffer) and reads the bytes at offsets
    16 and 17. *)
Theorem short_tagged_frame_is_read_past_its_end :
  returned (PacketParser_ctor of13_id 45 (frame_memory short_tagged_frame)
              (frame_in short_tagged_frame)) = true /\
  data_len (final (PacketParser_ctor of13_id 45 (frame_memory short_tagged_frame)
                     (frame_in short_tagged_frame))) = 14 /\
  trace (final (PacketParser_ctor of13_id 45 (frame_memory short_tagged_frame)
                  (frame_in short_tagged_frame))) = [17; 16; 13; 12] /\
  bindings (final (PacketParser_ctor of13_id 45 (frame_memory short_tagged_frame)
                     (frame_in short_tagged_frame))) !! of13_id ETH_TYPE
  = Some (packet 16) /\
  bindings (final (PacketParser_ctor of13_id 45 (frame_memory short_tagged_frame)
                     (frame_in short_tagged_frame))) !! of13_id VLAN_VID
  = Some (packet 14) /\
  vlanTagged (final (PacketParser_ctor of13_id 45 (frame_memory short_tagged_frame)
                       (frame_in short_tagged_frame))) = Some true.
Proof. vm_compute. repeat split; reflexivity. Qed.

(** C2 (the code at a failing input). A 34-byte tagged frame with inner
    ethertype 0x0800: 16 bytes remain from offset 18 on, yet [parse_l3] is
    given the length 20 and binds the three IPv4 fields, the destination
    address to offset 34, the end of the buffer. *)
Theorem tagged_ipv4_bound_with_16_bytes_left :
  returned (PacketParser_ctor of13_id 45 (frame_memory tagged_ipv4_34)
              (frame_in tagged_ipv4_34)) = true /\
  data_len (final (PacketParser_ctor of13_id 45 (frame_memory tagged_ipv4_34)
                     (frame_in tagged_ipv4_34))) = 34 /\
  bindings (final (PacketParser_ctor of13_id 45 (frame_memory tagged_ipv4_34)
                     (frame_in tagged_ipv4_34))) !! of13_id IP_PROTO
  = Some (packet 27) /\
  bindings (final (PacketParser_ctor of13_id 45 (frame_memory tagged_ipv4_34)
                     (frame_in tagged_ipv4_34))) !! of13_id IPV4_SRC
  = Some (packet 30) /\
  bindings (final (PacketParser_ctor of13_id 45 (frame_memory tagged_ipv4_34)
                     (frame_in tagged_ipv4_34))) !! of13_id IPV4_DST
  = Some (packet 34).
Proof. vm_compute. repeat split; reflexivity. Qed.

(** C3 (the code at a failing input). A 76-byte frame whose UDP payload
    is exactly the 34-byte DHCP fixed header: the loop of [parse_dhcp]
    runs for [i = 0 <= data_len - 34 = 0] and reads the byte at offset 76,
    the end of the buffer. *)
Theorem dhcp_scan_reads_the_end_of_the_buffer :
  returned (PacketParser_ctor of13_id 45 (frame_memory dhcp_header_only)
              (frame_in dhcp_header_only)) = true /\
  data_len (final (PacketParser_ctor of13_id 45 (frame_memory dhcp_header_only)
                     (frame_in dhcp_header_only))) = 76 /\
  head (trace (final (PacketParser_ctor of13_id 45 (frame_memory dhcp_header_only)
                        (frame_in dhcp_header_only)))) = Some 76 /\
  bindings (final (PacketParser_ctor of13_id 45 (frame_memory dhcp_header_only)
                     (frame_in dhcp_header_only))) !! of13_id DHCP_OP
  = Some (packet 42).
Proof. vm_compute. repeat split; reflexivity. Qed.

(** The example of the specification, run through the constructor:
    option 53 is found, option 99 is not, and no byte past the
    terminator at offset 83 is read. *)
Example dhcp_discover_options :
  get_dhcp_option 53 (final (PacketParser_ctor of13_id 45 (frame_memory dhcp_discover)
                               (frame_in dhcp_discover)))
  = mk_dhcp_opt 53 1 (packet 82) /\
  get_dhcp_option 99 (final (PacketParser_ctor of13_id 45 (frame_memory dhcp_discover)
                               (frame_in dhcp_discover)))
  = dhcp_opt_empty /\
  head (trace (final (PacketParser_ctor of13_id 45 (frame_memory dhcp_discover)
                        (frame_in dhcp_discover)))) = Some 83.
Proof. vm_compute. repeat split; reflexivity. Qed.

(** Ethernet, IPv4 and TCP: the ports and the protocol are loaded from
    where the headers hold them. *)
Example tcp_frame_fields :
  load 0x8000 (exact_mask (mk_oxm_type 0x8000 13 16))
       (final (PacketParser_ctor of13_id 45 (frame_memory tcp_frame) (frame_in tcp_frame)))
  = Done (mk_oxm_field (mk_oxm_type 0x8000 13 16) 0x1234 0xFFFF)
         (final (PacketParser_ctor of13_id 45 (frame_memory tcp_frame) (frame_in tcp_frame))) /\
  load 0x8000 (exact_mask (mk_oxm_type 0x8000 14 16))
       (final (PacketParser_ctor of13_id 45 (frame_memory tcp_frame) (frame_in tcp_frame)))
  = Done (mk_oxm_field (mk_oxm_type 0x8000 14 16) 0x0050 0xFFFF)
         (final (PacketParser_ctor of13_id 45 (frame_memory tcp_frame) (frame_in tcp_frame))) /\
  load 0x8000 (exact_mask (mk_oxm_type 0x8000 10 8))
       (final (PacketParser_ctor of13_id 45 (frame_memory tcp_frame) (frame_in tcp_frame)))
  = Done (mk_oxm_field (mk_oxm_type 0x8000 10 8) 6 0xFF)
         (final (PacketParser_ctor of13_id 45 (frame_memory tcp_frame) (frame_in tcp_frame))).
Proof. vm_compute. repeat split; reflexivity. Qed.

(** Two options with the same code: the later one is the one kept. *)
Example dhcp_duplicate_options :
  get_dhcp_option 53 (final (PacketParser_ctor of13_id 45 (frame_memory dhcp_duplicate)
                               (frame_in dhcp_duplicate)))
  = mk_dhcp_opt 53 1 (packet 85).
Proof. vm_compute. reflexivity. Qed.

(** Patching the VLAN id of the tagged sample frame (TCI 0xE005) to 0x123
    leaves the priority bits: the TCI becomes 0xE123. *)
Example vid_patch_keeps_priority :
  be16 (heap (final (modify 0x8000 vid_patch
                       (final (PacketParser_ctor of13_id 45 (frame_memory tagged_frame)
                                 (frame_in tagged_frame))))))
       dot1q_hdr.tci = 0xE123 /\
  tci_pcp 0xE123 = 7 /\ tci_vid 0xE123 = 0x123.
Proof. vm_compute. repeat split; reflexivity. Qed.


(** ** The general theorems at concrete inputs *)

Lemma bind_rebind_contract_witness :
  bind of13_id [ (ETH_TYPE, packet 12); (ETH_TYPE, packet 16) ]
       (started of13_id 45 (frame_memory untagged_frame) (frame_in untagged_frame))
  = Thrown (already_bound 5)
      (set_bindings
         (<[5%nat := packet 12]>
            (bindings (started of13_id 45 (frame_memory untagged_frame)
                         (frame_in untagged_frame))))
         (started of13_id 45 (frame_memory untagged_frame) (frame_in untagged_frame))) /\
  rebind of13_id [ (ETH_TYPE, packet 12) ]
         (started of13_id 45 (frame_memory untagged_frame) (frame_in untagged_frame))
  = Thrown (not_yet_bound 5)
      (started of13_id 45 (frame_memory untagged_frame) (frame_in untagged_frame)).
Proof.
  split.
  - apply (proj1 (bind_rebind_contract of13_id
                    [ (ETH_TYPE, packet 12); (ETH_TYPE, packet 16) ] _)
             [ (ETH_TYPE, packet 12) ] (ETH_TYPE, packet 16) []).
    + reflexivity.
    + reflexivity.
    + exists pi_buffer, 12. reflexivity.
  - apply (proj1 (proj2 (proj2 (bind_rebind_contract of13_id
                                  [ (ETH_TYPE, packet 12) ] _)))
             [] (ETH_TYPE, packet 12) []).
    + reflexivity.
    + reflexivity.
    + reflexivity.
Defined.

Lemma short_buffer_binds_only_in_port_witness :
  exists p,
    PacketParser_ctor of13_id 45 (frame_memory runt_frame) (frame_in runt_frame)
    = Done tt p /\
    bindings p !! of13_id IN_PORT = Some in_port_ptr /\
    unbound_slot (bindings p) (of13_id ETH_TYPE) /\
    trace p = [].
Proof.
  destruct (short_buffer_binds_only_in_port of13_id 45 of13_id_inj of13_id_lt
              (frame_memory runt_frame) (frame_in runt_frame))
    as (p & Hp & Hport & Hfields & _ & _ & _ & Htrace).
  - reflexivity.
  - exists p. repeat split; [exact Hp | exact Hport | | exact Htrace].
    apply Hfields. discriminate.
Defined.

Lemma untagged_vlan_vid_absent_witness :
  exists p,
    PacketParser_ctor of13_id 45 (frame_memory untagged_frame) (frame_in untagged_frame)
    = Done tt p /\
    unbound_slot (bindings p) (of13_id VLAN_VID) /\
    access 0x8000 sample_vlan_vid p = Thrown (unsupported_field 6) p /\
    load 0x8000 (exact_mask sample_vlan_vid) p = Thrown (unsupported_field 6) p /\
    modify 0x8000 vid_patch p = Thrown (unsupported_field 6) p.
Proof.
  destruct (untagged_vlan_vid_absent of13_id 45 0x8000 of13_id_inj of13_id_lt
              (frame_memory untagged_frame) (frame_in untagged_frame) 0)
    as (p & Hp & _ & _ & Hslot & _ & Hacc).
  - reflexivity.
  - vm_compute. discriminate.
  - vm_compute. discriminate.
  - destruct (Hacc sample_vlan_vid eq_refl eq_refl) as [(Ha & Hl & Hm) _].
    exists p. repeat split; [exact Hp | exact Hslot | exact Ha | | ].
    + apply Hl. reflexivity.
    + apply Hm. reflexivity.
Defined.

Lemma invalid_arp_binds_nothing_witness :
  exists p,
    PacketParser_ctor of13_id 45 (frame_memory bad_arp_frame) (frame_in bad_arp_frame)
    = Done tt p /\
    unbound_slot (bindings p) (of13_id ARP_OP) /\
    access 0x8000 sample_arp_op p = Thrown (unsupported_field 21) p.
Proof.
  destruct (invalid_arp_binds_nothing of13_id 45 0x8000 of13_id_inj of13_id_lt
              (frame_memory bad_arp_frame) (frame_in bad_arp_frame) 0 14)
    as (p & Hp & Harp).
  - reflexivity.
  - vm_compute. discriminate.
  - left. split; vm_compute; reflexivity.
  - vm_compute. discriminate.
  - left. vm_compute. discriminate.
  - destruct (Harp ARP_OP) as [Hslot Hacc].
    + apply (bool_decide_unpack _). vm_compute. reflexivity.
    + exists p. repeat split; [exact Hp | exact Hslot |].
      apply (Hacc sample_arp_op eq_refl eq_refl).
Defined.


Lemma modify_patches_masked_bits_witness :
  exists p',
    modify 0x8000 vid_patch
      (final (PacketParser_ctor of13_id 45 (frame_memory tagged_frame)
                (frame_in tagged_frame)))
    = Done tt p' /\
    bindings p'
    = bindings (final (PacketParser_ctor of13_id 45 (frame_memory tagged_frame)
                         (frame_in tagged_frame))) /\
    heap p' pi_buffer 13
    = heap (final (PacketParser_ctor of13_id 45 (frame_memory tagged_frame)
                     (frame_in tagged_frame))) pi_buffer 13.
Proof.
  destruct (modify_patches_masked_bits 0x8000
              (final (PacketParser_ctor of13_id 45 (frame_memory tagged_frame)
                        (frame_in tagged_frame)))
              vid_patch pi_buffer 14)
    as (p' & Hp' & Hb & _ & _ & Hout & _).
  - reflexivity.
  - vm_compute. reflexivity.
  - exists p'. repeat split; [exact Hp' | exact Hb |].
    apply Hout. intros [_ [H _]]. vm_compute in H. apply H. reflexivity.
Defined.

Lemma dhcp_option_table_last_wins_witness :
  exists p',
    parse_l4 of13_id 0x11 34 50
      (started of13_id 45 (frame_memory dhcp_discover) (frame_in dhcp_discover))
    = Done tt p' /\
    get_dhcp_option 53 p' = mk_dhcp_opt 53 1 (packet 82) /\
    get_dhcp_option 99 p' = dhcp_opt_empty.
Proof.
  destruct (dhcp_option_table_last_wins of13_id of13_id_inj 34 50
              (started of13_id 45 (frame_memory dhcp_discover) (frame_in dhcp_discover))
              [] [ (53, [2]) ])
    as (p' & Hp' & Hlast & Hnone).
  - vm_compute. reflexivity.
  - vm_compute. reflexivity.
  - constructor.
  - constructor; [split; [discriminate | simpl; lia] | constructor].
  - intros k x H.
    do 8 (destruct k as [|k]; [injection H as <-; vm_compute; reflexivity|]).
    discriminate H.
  - vm_compute. discriminate.
  - intros f Hf.
    repeat (apply elem_of_cons in Hf as [->|Hf]); try (vm_compute; reflexivity).
    inversion Hf.
  - reflexivity.
  - exists p'. repeat split; [exact Hp' | | ].
    + apply (Hlast [] 53 [2] [] eq_refl). apply not_elem_of_nil.
    + apply Hnone. intros H. apply elem_of_cons in H as [H|H]; [discriminate H | inversion H].
Defined.

(** ** The statements about any packet-in, on sample frames *)

Lemma constructor_always_returns_witness :
  exists p,
    PacketParser_ctor of13_id 45 (frame_memory tcp_frame) (frame_in tcp_frame)
    = Done tt p /\
    length (bindings p) = 45%nat /\
    bindings p !! of13_id IN_PORT = Some in_port_ptr /\
    total_bytes p = 54.
Proof.
  destruct (constructor_always_returns of13_id 45 of13_id_inj of13_id_lt
              (frame_memory tcp_frame) (frame_in tcp_frame))
    as (p & Hp & Hsize & Hport & _ & Hlen & _).
  exists p. repeat split; assumption.
Defined.

Lemma constructor_reads_stay_near_the_buffer_witness :
  exists p,
    PacketParser_ctor of13_id 45 (frame_memory dhcp_discover) (frame_in dhcp_discover)
    = Done tt p /\
    Forall (fun o => 0 <= o < 86) (trace p).
Proof.
  destruct (constructor_reads_stay_near_the_buffer of13_id 45 of13_id_inj of13_id_lt
              (frame_memory dhcp_discover) (frame_in dhcp_discover) 0 eq_refl)
    as (p & Hp & _ & Hr).
  exists p. split; [exact Hp|]. apply Hr. vm_compute. discriminate.
Defined.

Lemma constructor_reads_without_dhcp_witness :
  exists p,
    PacketParser_ctor of13_id 45 (frame_memory tcp_frame) (frame_in tcp_frame)
    = Done tt p /\
    Forall (fun o => 0 <= o < 54) (trace p).
Proof.
  destruct (constructor_reads_without_dhcp of13_id 45 of13_id_inj of13_id_lt
              (frame_memory tcp_frame) (frame_in tcp_frame) 0 eq_refl)
    as (p & Hp & Hr).
  exists p. split; [exact Hp|].
  assert (E : p = final (PacketParser_ctor of13_id 45 (frame_memory tcp_frame)
                           (frame_in tcp_frame))) by (rewrite Hp; reflexivity).
  destruct Hr as [Hr _].
  - rewrite E. vm_compute. reflexivity.
  - apply Hr. vm_compute. discriminate.
Defined.

Lemma no_dhcp_layer_no_options_witness :
  exists p,
    PacketParser_ctor of13_id 45 (frame_memory tcp_frame) (frame_in tcp_frame)
    = Done tt p /\
    get_dhcp_option 53 p = dhcp_opt_empty.
Proof.
  destruct (no_dhcp_layer_no_options of13_id 45 of13_id_inj of13_id_lt
              (frame_memory tcp_frame) (frame_in tcp_frame))
    as (p & Hp & Hnone).
  exists p. split; [exact Hp|]. apply Hnone. right.
  assert (E : p = final (PacketParser_ctor of13_id 45 (frame_memory tcp_frame)
                           (frame_in tcp_frame))) by (rewrite Hp; reflexivity).
  rewrite E. vm_compute. reflexivity.
Defined.

Lemma link_layer_locations_witness :
  exists p,
    PacketParser_ctor of13_id 45 (frame_memory tagged_frame) (frame_in tagged_frame)
    = Done tt p /\
    vlanTagged p = Some true /\
    bindings p !! of13_id ETH_SRC = Some (packet 6) /\
    bindings p !! of13_id ETH_TYPE = Some (packet 16).
Proof.
  destruct (link_layer_locations of13_id 45 of13_id_inj of13_id_lt
              (frame_memory tagged_frame) (frame_in tagged_frame) 0 eq_refl)
    as (p & Hp & Hflag & _ & Hsrc & Hty & _).
  - vm_compute. discriminate.
  - exists p. repeat split; [exact Hp | exact Hflag | exact Hsrc | exact Hty].
Defined.

Lemma ipv4_locations_witness :
  exists p,
    PacketParser_ctor of13_id 45 (frame_memory tcp_frame) (frame_in tcp_frame)
    = Done tt p /\
    bindings p !! of13_id IP_PROTO = Some (packet 23) /\
    bindings p !! of13_id IPV4_SRC = Some (packet 26) /\
    bindings p !! of13_id IPV4_DST = Some (packet 30).
Proof.
  destruct (ipv4_locations of13_id 45 of13_id_inj of13_id_lt
              (frame_memory tcp_frame) (frame_in tcp_frame) 0 eq_refl)
    as (p & Hp & Hloc & _).
  - vm_compute. discriminate.
  - vm_compute. reflexivity.
  - exists p. split; [exact Hp|]. apply Hloc. vm_compute. discriminate.
Defined.

Lemma unhandled_ethertype_binds_nothing_witness :
  exists p,
    PacketParser_ctor of13_id 45 (frame_memory ipv6_frame) (frame_in ipv6_frame)
    = Done tt p /\
    unbound_slot (bindings p) (of13_id IP_PROTO).
Proof.
  destruct (unhandled_ethertype_binds_nothing of13_id 45 of13_id_inj of13_id_lt
              (frame_memory ipv6_frame) (frame_in ipv6_frame) 0 eq_refl)
    as (p & Hp & Hun).
  - vm_compute. discriminate.
  - vm_compute. discriminate.
  - vm_compute. discriminate.
  - exists p. split; [exact Hp|]. apply Hun. apply (bool_decide_unpack _).
    vm_compute. reflexivity.
Defined.

Lemma arp_locations_witness :
  exists p,
    PacketParser_ctor of13_id 45 (frame_memory arp_request) (frame_in arp_request)
    = Done tt p /\
    bindings p !! of13_id ARP_OP = Some (packet 20) /\
    bindings p !! of13_id ARP_SHA = Some (packet 22) /\
    bindings p !! of13_id ARP_SPA = Some (packet 28) /\
    bindings p !! of13_id ARP_THA = Some (packet 32) /\
    bindings p !! of13_id ARP_TPA = Some (packet 38).
Proof.
  destruct (arp_locations of13_id 45 of13_id_inj of13_id_lt
              (frame_memory arp_request) (frame_in arp_request) 0 eq_refl)
    as (p & Hp & Hloc & _).
  - vm_compute. discriminate.
  - vm_compute. reflexivity.
  - exists p. split; [exact Hp|].
    apply Hloc; vm_compute; first [reflexivity | discriminate].
Defined.

Lemma tcp_locations_witness :
  exists p,
    PacketParser_ctor of13_id 45 (frame_memory tcp_frame) (frame_in tcp_frame)
    = Done tt p /\
    bindings p !! of13_id TCP_SRC = Some (packet 34) /\
    bindings p !! of13_id TCP_DST = Some (packet 36).
Proof.
  destruct (tcp_locations of13_id 45 of13_id_inj of13_id_lt
              (frame_memory tcp_frame) (frame_in tcp_frame) 0 eq_refl)
    as (p & Hp & Hloc & _).
  - vm_compute. discriminate.
  - vm_compute. reflexivity.
  - vm_compute. discriminate.
  - vm_compute. reflexivity.
  - exists p. split; [exact Hp|]. apply Hloc. vm_compute. discriminate.
Defined.

Lemma udp_locations_witness :
  exists p,
    PacketParser_ctor of13_id 45 (frame_memory udp_68_67) (frame_in udp_68_67)
    = Done tt p /\
    bindings p !! of13_id UDP_SRC = Some (packet 34) /\
    bindings p !! of13_id UDP_DST = Some (packet 36).
Proof.
  destruct (udp_locations of13_id 45 of13_id_inj of13_id_lt
              (frame_memory udp_68_67) (frame_in udp_68_67) 0 eq_refl)
    as (p & Hp & Hloc & _).
  - vm_compute. discriminate.
  - vm_compute. reflexivity.
  - vm_compute. discriminate.
  - vm_compute. reflexivity.
  - exists p. split; [exact Hp|]. apply Hloc. vm_compute. discriminate.
Defined.

Lemma dhcp_locations_witness :
  exists p,
    PacketParser_ctor of13_id 45 (frame_memory dhcp_discover) (frame_in dhcp_discover)
    = Done tt p /\
    bindings p !! of13_id DHCP_OP = Some (packet 42) /\
    bindings p !! of13_id DHCP_XID = Some (packet 46) /\
    bindings p !! of13_id DHCP_CIADDR = Some (packet 54) /\
    bindings p !! of13_id DHCP_YIADDR = Some (packet 58) /\
    bindings p !! of13_id DHCP_CHADDR = Some (packet 70).
Proof.
  destruct (dhcp_locations of13_id 45 of13_id_inj of13_id_lt
              (frame_memory dhcp_discover) (frame_in dhcp_discover) 0 eq_refl)
    as (p & Hp & Hloc & _).
  - vm_compute. discriminate.
  - vm_compute. reflexivity.
  - vm_compute. discriminate.
  - vm_compute. reflexivity.
  - vm_compute. discriminate.
  - exists p. split; [exact Hp|].
    apply Hloc; vm_compute; first [reflexivity | discriminate].
Defined.

Lemma bound_fields_follow_the_stack_witness :
  exists p,
    PacketParser_ctor of13_id 45 (frame_memory dhcp_discover) (frame_in dhcp_discover)
    = Done tt p /\
    layered (fun f => bound_slot (bindings p) (of13_id f)).
Proof.
  exact (bound_fields_follow_the_stack of13_id 45 of13_id_inj of13_id_lt
           (frame_memory dhcp_discover) (frame_in dhcp_discover)).
Defined.

Lemma options_describe_the_packet_witness :
  exists p,
    PacketParser_ctor of13_id 45 (frame_memory dhcp_discover) (frame_in dhcp_discover)
    = Done tt p /\
    forall code,
      get_dhcp_option code p = dhcp_opt_empty \/
      exists pos,
        0 <= pos < 90 /\
        Byte.to_N (frame_memory dhcp_discover pi_buffer pos) = code /\ code <> 0xFF /\
        get_dhcp_option code p
        = mk_dhcp_opt code (Byte.to_N (frame_memory dhcp_discover pi_buffer (pos + 1)))
                      (packet (pos + 2)).
Proof.
  exact (options_describe_the_packet of13_id 45 of13_id_inj of13_id_lt
           (frame_memory dhcp_discover) (frame_in dhcp_discover) 0 eq_refl).
Defined.

Lemma options_need_the_cookie_witness :
  exists p,
    PacketParser_ctor of13_id 45 (frame_memory dhcp_discover) (frame_in dhcp_discover)
    = Done tt p /\
    exists pos,
      0 <= pos /\ pos + 3 < 90 /\ holds (frame_memory dhcp_discover) pos dhcp_cookie.
Proof.
  destruct (options_need_the_cookie of13_id 45 of13_id_inj of13_id_lt
              (frame_memory dhcp_discover) (frame_in dhcp_discover) 0 53 eq_refl)
    as (p & Hp & Hcookie).
  exists p. split; [exact Hp|]. apply Hcookie.
  assert (E : p = final (PacketParser_ctor of13_id 45 (frame_memory dhcp_discover)
                           (frame_in dhcp_discover))) by (rewrite Hp; reflexivity).
  rewrite E. vm_compute. discriminate.
Defined.

Lemma serialize_returns_the_frame_witness :
  exists p p',
    PacketParser_ctor of13_id 45 (frame_memory tcp_frame) (frame_in tcp_frame)
    = Done tt p /\
    serialize_to 20 (ptr pi_buffer 10) p = Done 20 p' /\
    Byte.to_N (heap p' pi_buffer 22) = 0x08 /\
    heap p' pi_buffer 30 = heap p pi_buffer 30 /\
    bindings p' = bindings p.
Proof.
  destruct (serialize_returns_the_frame of13_id 45 of13_id_inj of13_id_lt
              (frame_memory tcp_frame) (frame_in tcp_frame) 0 20 pi_buffer 10 eq_refl)
    as (p & p' & Hp & Hs & Hcopy & Hrest & Hb & _).
  exists p, p'. repeat split; [exact Hp | exact Hs | | | exact Hb].
  - change 22 with (10 + 12).
    rewrite (Hcopy 12) by (vm_compute; reflexivity). vm_compute. reflexivity.
  - apply Hrest. intros [_ [_ H]]. vm_compute in H. discriminate H.
Defined.

Lemma accessors_succeed_and_fail_together_witness :
  access 0x8000 sample_arp_op
    (final (PacketParser_ctor of13_id 45 (frame_memory tcp_frame) (frame_in tcp_frame)))
  = Thrown (unsupported_field 21)
      (final (PacketParser_ctor of13_id 45 (frame_memory tcp_frame) (frame_in tcp_frame))) /\
  access 0x8000 (mk_oxm_type 0xFFFF 21 16)
    (final (PacketParser_ctor of13_id 45 (frame_memory tcp_frame) (frame_in tcp_frame)))
  = Thrown (unsupported_ns 0xFFFF)
      (final (PacketParser_ctor of13_id 45 (frame_memory tcp_frame) (frame_in tcp_frame))).
Proof.
  split.
  - apply (accessors_succeed_and_fail_together 0x8000 sample_arp_op).
    intros [_ (b & off & H)]. vm_compute in H. discriminate H.
  - apply (accessors_succeed_and_fail_together 0x8000 (mk_oxm_type 0xFFFF 21 16)).
    intros [H _]. discriminate H.
Defined.
